(** * tdp-lib: deployment planning, running and querying

    A shallow embedding of the planning/execution code of tdp-lib and of
    the behaviour its specification describes, followed by the properties
    established about it.

    Layout:
    - [Executor]   : [tdp/core/runner/executor.py] ([StateEnum.has_value]);
    - results and exceptions;
    - [Models]     : the enumerations and records of the data model;
    - [Runner]     : the deployment runner and its iterator (per-step
                     algorithm, component-version emission);
    - [Plan]       : [from_failed_deployment];
    - [Queries]    : [tdp/cli/queries.py];
    - [PlanDag]    : [tdp/cli/commands/plan/dag.py];
    - [Scenario]   : the fixtures of [test_deployment_runner.py] and the
                     tables used in the examples;
    - the properties, each followed by its example on a scenario. *)

From Stdlib Require Import ZArith List String Ascii Bool Lia.
From stdpp Require Import base option list gmap sets strings sorting.

Local Open Scope string_scope.

(* ===================================================================== *)
(** ** Executor: [tdp/core/runner/executor.py] *)
(* ===================================================================== *)

Module Executor.

(** [class StateEnum(Enum)]: two members, each with a string value. *)
Inductive StateEnum := SUCCESS | FAILURE.

(** [cls.__members__.values()], in definition order. *)
Definition members : list StateEnum := [SUCCESS; FAILURE].

(** The [.value] attribute of a member. *)
Definition value (m : StateEnum) : string :=
  match m with
  | SUCCESS => "Success"
  | FAILURE => "Failure"
  end.

(** The [.name] attribute of a member. *)
Definition name (m : StateEnum) : string :=
  match m with
  | SUCCESS => "SUCCESS"
  | FAILURE => "FAILURE"
  end.

(** The Python values [has_value] can be handed: the builtin scalars and
    the members of the enumeration themselves. *)
Inductive PyValue :=
| PyNone
| PyBool (b : bool)
| PyInt (z : Z)
| PyStr (s : string)
| PyBytes (b : list Byte.byte)
| PyMember (m : StateEnum).

(** Python's [==] between a value and a [str]: only an equal [str] is
    equal to it; an [Enum] member without a [str] mixin never is. *)
Definition py_eq_str (v : PyValue) (s : string) : bool :=
  match v with
  | PyStr s' => String.eqb s' s
  | _ => false
  end.

(** [value in (v.value for v in cls.__members__.values())] *)
Definition has_value (v : PyValue) : bool :=
  existsb (py_eq_str v) (map value members).

End Executor.

(* ===================================================================== *)
(** ** Results and exceptions *)
(* ===================================================================== *)

(** A call either returns a value or raises. *)
Inductive result (X A : Type) :=
| Ok (a : A)
| Err (e : X).
Arguments Ok {X A}.
Arguments Err {X A}.

(** The text of the messages the code builds with f-strings, kept
    structured: the interpolated values are the constructor arguments. *)
Inductive Message :=
| DeploymentDoesNotExist (deployment_id : Z)
    (* "Deployment id {deployment_id} does not exist." *)
| NoDeployments
    (* "No deployments." *)
| OperationDoesNotExist (operation_name : string) (deployment_id : Z)
    (* "Operation {operation_name} does not exist in deployment {deployment_id}." *)
| VarsDoesNotExist (vars : string)
    (* "{vars} does not exist." *)
| NotValidNodes (set_difference : gset string).
    (* "{set_difference} are not valid nodes." *)

(** The exceptions the code raises or lets through. [Exception m cause]
    is [raise Exception(m) from cause]; [Other] stands for what a
    collaborator outside the sources raises. *)
Inductive Exn :=
| NoResultFound
| MultipleResultsFound
| Exception (m : Message) (cause : Exn)
| KeyError (key : string)
| BadParameter (m : Message)
| ClickException (cause : Exn)
| EmptyDeployment
| Other (s : string).

(* ===================================================================== *)
(** ** Models: the enumerations and records of the data model *)
(* ===================================================================== *)

(** The package [tdp.core.models] is not among the sources; its
    enumerations and mapped classes are taken from the data model of the
    specification. *)

Module Models.

(** Executor output: opaque bytes. *)
Abbreviation bytes := (list Byte.byte).

#[global] Instance byte_eq_dec : EqDecision Byte.byte := Byte.byte_eq_dec.

(** A (service, component?) pair; the component is absent for a
    service-level entry. *)
Abbreviation ServiceComponent := (string * option string)%type.

Module FilterTypeEnum.
(** Modelled from the spec: [FilterTypeEnum] of [tdp.core.models], with
    the members GLOB and REGEX. *)
Inductive t := GLOB | REGEX.
#[global] Instance eq_dec : EqDecision t.
Proof. solve_decision. Defined.

(** [FilterTypeEnum.X.name] *)
Definition name (f : t) : string :=
  match f with
  | GLOB => "GLOB"
  | REGEX => "REGEX"
  end.

(** [FilterTypeEnum[key]]: lookup of a member by its name; an unknown
    name raises [KeyError] (here [None]). *)
Definition getitem (key : string) : option t :=
  if String.eqb key "GLOB" then Some GLOB
  else if String.eqb key "REGEX" then Some REGEX
  else None.
End FilterTypeEnum.

Module DeploymentTypeEnum.
(** Modelled from the spec: [DeploymentTypeEnum] of [tdp.core.models]. *)
Inductive t := DAG | OPERATIONS | RESUME | RECONFIGURE.
#[global] Instance eq_dec : EqDecision t.
Proof. solve_decision. Defined.
End DeploymentTypeEnum.

Module DeploymentStateEnum.
(** Modelled from the spec: [DeploymentStateEnum] of [tdp.core.models]. *)
Inductive t := PLANNED | RUNNING | SUCCESS | FAILURE.
#[global] Instance eq_dec : EqDecision t.
Proof. solve_decision. Defined.
End DeploymentStateEnum.

Module OperationStateEnum.
(** Modelled from the spec: [OperationStateEnum] of [tdp.core.models]. *)
Inductive t := PLANNED | RUNNING | SUCCESS | FAILURE | HELD.
#[global] Instance eq_dec : EqDecision t.
Proof. solve_decision. Defined.
End OperationStateEnum.

Module Operation.
(** Modelled from the spec: [Operation], a catalog entry; the class is
    not among the sources. The service, component and action are those
    the catalog parsed from the name. *)
Record t := mk {
  name : string;
  service : string;
  component : option string;
  action : string;
  noop : bool;
  host_names : list string
}.

Definition key (op : t) : ServiceComponent := (service op, component op).
End Operation.

(** The operation catalog: [operations: map<name -> Operation>]. *)
Abbreviation Collections := (gmap string Operation.t).

Module OperationLog.
(** Modelled from the spec: [OperationLog] of [tdp.core.models]. *)
Record t := mk {
  deployment_id : option Z;
  operation : string;
  state : OperationStateEnum.t;
  start_time : option nat;
  end_time : option nat;
  logs : option bytes
}.

#[global] Instance eq_dec : EqDecision t.
Proof. solve_decision. Defined.

(** A freshly planned entry for an operation name. *)
Definition planned (name : string) : t :=
  mk None name OperationStateEnum.PLANNED None None None.
End OperationLog.

Module ComponentVersionLog.
(** Modelled from the spec: [ComponentVersionLog] of [tdp.core.models]. *)
Record t := mk {
  deployment_id : option Z;
  service : string;
  component : option string;
  version : string
}.

#[global] Instance eq_dec : EqDecision t.
Proof. solve_decision. Defined.

Definition key (c : t) : ServiceComponent := (service c, component c).
End ComponentVersionLog.

Module DeploymentLog.
(** Modelled from the spec: [DeploymentLog] of [tdp.core.models]; the
    operation logs and version logs it owns are held in the record. *)
Record t := mk {
  id : option Z;
  sources : option (list string);
  targets : option (list string);
  filter_expression : option string;
  filter_type : option FilterTypeEnum.t;
  restart : bool;
  deployment_type : DeploymentTypeEnum.t;
  state : DeploymentStateEnum.t;
  start_time : option nat;
  end_time : option nat;
  operations : list OperationLog.t;
  component_version : list ComponentVersionLog.t
}.

#[global] Instance eq_dec : EqDecision t.
Proof. solve_decision. Defined.

(** Attribute assignments on the (mutable) log. *)
Definition set_id (v : option Z) (d : t) : t :=
  mk v (sources d) (targets d) (filter_expression d) (filter_type d)
     (restart d) (deployment_type d) (state d) (start_time d)
     (end_time d) (operations d) (component_version d).

Definition set_state (v : DeploymentStateEnum.t) (d : t) : t :=
  mk (id d) (sources d) (targets d) (filter_expression d) (filter_type d)
     (restart d) (deployment_type d) v (start_time d)
     (end_time d) (operations d) (component_version d).

Definition set_start_time (v : option nat) (d : t) : t :=
  mk (id d) (sources d) (targets d) (filter_expression d) (filter_type d)
     (restart d) (deployment_type d) (state d) v
     (end_time d) (operations d) (component_version d).

Definition set_end_time (v : option nat) (d : t) : t :=
  mk (id d) (sources d) (targets d) (filter_expression d) (filter_type d)
     (restart d) (deployment_type d) (state d) (start_time d)
     v (operations d) (component_version d).

Definition set_operations (v : list OperationLog.t) (d : t) : t :=
  mk (id d) (sources d) (targets d) (filter_expression d) (filter_type d)
     (restart d) (deployment_type d) (state d) (start_time d)
     (end_time d) v (component_version d).

Definition set_component_version (v : list ComponentVersionLog.t) (d : t) : t :=
  mk (id d) (sources d) (targets d) (filter_expression d) (filter_type d)
     (restart d) (deployment_type d) (state d) (start_time d)
     (end_time d) (operations d) v.

(** The operation names of the plan, in plan order. *)
Definition operation_names (d : t) : list string :=
  map OperationLog.operation (operations d).
End DeploymentLog.

End Models.

(* ===================================================================== *)
(** ** Runner: DeploymentRunner and DeploymentIterator *)
(* ===================================================================== *)

Module Runner.
Import Models.

(** Modelled from the spec: the executor interface of
    [tdp.core.deployment.executor] is not among the sources; its single
    method returns SUCCESS or FAILURE together with the logs. The
    executor may keep state between calls (the tests' one-shot-then-fail
    executor counts its calls), so [execute] threads a state of type
    [E]. *)
Inductive ExecutorState := ExecSuccess | ExecFailure.

Definition to_operation_state (s : ExecutorState) : OperationStateEnum.t :=
  match s with
  | ExecSuccess => OperationStateEnum.SUCCESS
  | ExecFailure => OperationStateEnum.FAILURE
  end.

(** Modelled from the spec: [DeploymentRunner(collections, executor,
    cluster_variables, stale_components)]; the class is not among the
    sources. The cluster variables are represented by their [get_hash]
    and a stale component by the entry it seeds into the working map. *)
Record DeploymentRunner (E : Type) := mkRunner {
  collections : Collections;
  execute : E -> Operation.t -> ExecutorState * bytes * E;
  get_hash : string -> option string -> string;
  stale_components : list (ServiceComponent * string)
}.
Arguments mkRunner {E}.
Arguments collections {E}.
Arguments execute {E}.
Arguments get_hash {E}.
Arguments stale_components {E}.

(** Modelled from the spec: the iterator returned by [run]; it owns the
    mutable deployment log, the position in the plan, the state of the
    operation it yielded last (the code after the yield runs when the
    next element is pulled), the working map [last_configured], the
    pairs already emitted, the executor and the clock. *)
Record DeploymentIterator (E : Type) := mkIterator {
  deployment_log : DeploymentLog.t;
  position : nat;
  last_state : option OperationStateEnum.t;
  finished : bool;
  executor : E;
  last_configured : gmap ServiceComponent string;
  emitted : gset ServiceComponent;
  now : nat
}.
Arguments mkIterator {E}.
Arguments deployment_log {E}.
Arguments position {E}.
Arguments last_state {E}.
Arguments finished {E}.
Arguments executor {E}.
Arguments last_configured {E}.
Arguments emitted {E}.
Arguments now {E}.

(** What pulling the next element gives: an element, the end of the
    iteration, or an exception. Each carries the iterator afterwards. *)
Inductive NextResult (E : Type) :=
| Yield (y : OperationLog.t * option ComponentVersionLog.t)
        (it : DeploymentIterator E)
| StopIteration (it : DeploymentIterator E)
| Raise (e : Exn) (it : DeploymentIterator E).
Arguments Yield {E}.
Arguments StopIteration {E}.
Arguments Raise {E}.

Section WithExecutor.
Context {E : Type}.

(** Modelled from the spec: the working map starts empty and is
    seeded with the stale components' entries. *)
Definition seed (stale : list (ServiceComponent * string))
  : gmap ServiceComponent string :=
  foldl (fun m e => <[e.1 := e.2]> m) ∅ stale.

(** Modelled from the spec: [run(deployment_log)], the entry point. *)
Definition run (r : DeploymentRunner E) (e0 : E) (clock : nat)
    (dl : DeploymentLog.t) : DeploymentIterator E :=
  mkIterator dl 0 None false e0 (seed (stale_components r)) ∅ clock.

(** Modelled from the spec: the component-version emission rule.
    A successful config stores the current hash for its pair; a
    successful start or restart emits the stored hash when the pair
    has one and has not been emitted in this deployment. *)
Definition emission (r : DeploymentRunner E) (dl_id : option Z)
    (op : Operation.t) (st : OperationStateEnum.t)
    (lc : gmap ServiceComponent string) (em : gset ServiceComponent)
  : option ComponentVersionLog.t * gmap ServiceComponent string
    * gset ServiceComponent :=
  match st with
  | OperationStateEnum.SUCCESS =>
      if String.eqb (Operation.action op) "config" then
        (None,
         <[Operation.key op :=
             get_hash r (Operation.service op) (Operation.component op)]> lc,
         em)
      else if String.eqb (Operation.action op) "start"
              || String.eqb (Operation.action op) "restart" then
        match lc !! Operation.key op with
        | Some h =>
            if decide (Operation.key op ∈ em) then (None, lc, em)
            else (Some (ComponentVersionLog.mk dl_id (Operation.service op)
                          (Operation.component op) h),
                  lc, {[Operation.key op]} ∪ em)
        | None => (None, lc, em)
        end
      else (None, lc, em)
  | _ => (None, lc, em)
  end.

(** Modelled from the spec: leaving RUNNING; the terminal state and
    the end time are recorded and the iterator is exhausted. *)
Definition finalize (s : DeploymentStateEnum.t) (it : DeploymentIterator E)
  : DeploymentIterator E :=
  mkIterator
    (DeploymentLog.set_end_time (Some (now it))
       (DeploymentLog.set_state s (deployment_log it)))
    (position it) (last_state it) true (executor it)
    (last_configured it) (emitted it) (S (now it)).

(** Modelled from the spec: steps 1 to 6 of the per-step algorithm,
    for the operation log [ol] at the current position. *)
Definition step (r : DeploymentRunner E) (it : DeploymentIterator E)
    (ol : OperationLog.t) : NextResult E :=
  let i := position it in
  let t0 := now it in
  (* 1. the deployment enters RUNNING on the first step *)
  let dl1 :=
    if Nat.eqb i 0 then
      DeploymentLog.set_start_time (Some t0)
        (DeploymentLog.set_state DeploymentStateEnum.RUNNING
           (deployment_log it))
    else deployment_log it in
  (* 2. the operation is marked RUNNING *)
  let ol_running :=
    OperationLog.mk (OperationLog.deployment_id ol)
      (OperationLog.operation ol) OperationStateEnum.RUNNING (Some t0)
      (OperationLog.end_time ol) (OperationLog.logs ol) in
  let dl2 :=
    DeploymentLog.set_operations
      (<[i := ol_running]> (DeploymentLog.operations dl1)) dl1 in
  match collections r !! OperationLog.operation ol with
  | None =>
      Raise (KeyError (OperationLog.operation ol))
        (mkIterator dl2 i (last_state it) true (executor it)
           (last_configured it) (emitted it) (S t0))
  | Some op =>
      (* 3. a noop is a success with empty logs; otherwise the
            executor decides *)
      let '(st, out, e') :=
        if Operation.noop op then
          (OperationStateEnum.SUCCESS, [], executor it)
        else
          let '(s, o, e1) := execute r (executor it) op in
          (to_operation_state s, o, e1) in
      (* 4. end time *)
      let ol_done :=
        OperationLog.mk (OperationLog.deployment_id ol)
          (OperationLog.operation ol) st (Some t0) (Some (S t0))
          (Some out) in
      (* 5. component-version emission *)
      let '(cv, lc', em') :=
        emission r (DeploymentLog.id dl2) op st
          (last_configured it) (emitted it) in
      let dl3 :=
        DeploymentLog.set_component_version
          (DeploymentLog.component_version dl2
             ++ match cv with Some c => [c] | None => [] end)
          (DeploymentLog.set_operations
             (<[i := ol_done]> (DeploymentLog.operations dl2)) dl2) in
      (* 6. yield *)
      Yield (ol_done, cv)
        (mkIterator dl3 (S i) (Some st) false e' lc' em' (S (S t0)))
  end.

(** Modelled from the spec: pulling the next element. Steps 7 and 8
    of the per-step algorithm follow the yield, so they run on the
    pull after it: a FAILURE yielded last ends the deployment in
    FAILURE, and running past the last operation ends it in
    SUCCESS. *)
Definition next (r : DeploymentRunner E) (it : DeploymentIterator E)
  : NextResult E :=
  if finished it then StopIteration it
  else if decide (last_state it = Some OperationStateEnum.FAILURE) then
    StopIteration (finalize DeploymentStateEnum.FAILURE it)
  else
    match DeploymentLog.operations (deployment_log it) !! position it with
    | None => StopIteration (finalize DeploymentStateEnum.SUCCESS it)
    | Some ol => step r it ol
    end.

(** How a loop over the iterator ended. *)
Inductive Outcome := Exhausted | Raised (e : Exn) | OutOfFuel.

(** [for _ in deployment_iterator: pass], with the elements kept:
    pull until the iterator stops or raises, at most [fuel] times. *)
Fixpoint drain (r : DeploymentRunner E) (fuel : nat)
    (it : DeploymentIterator E)
  : list (OperationLog.t * option ComponentVersionLog.t)
    * DeploymentIterator E * Outcome :=
  match fuel with
  | O => ([], it, OutOfFuel)
  | S fuel' =>
      match next r it with
      | Yield y it' =>
          let '(ys, fin, o) := drain r fuel' it' in (y :: ys, fin, o)
      | StopIteration it' => ([], it', Exhausted)
      | Raise e it' => ([], it', Raised e)
      end
  end.

(** Running a deployment to its end: one pull per operation and the
    pull that ends the iteration. *)
Definition run_all (r : DeploymentRunner E) (e0 : E) (clock : nat)
    (dl : DeploymentLog.t) :=
  drain r (S (length (DeploymentLog.operations dl))) (run r e0 clock dl).

(** *** Reading a plan against the catalog *)

(** The catalog entry of the operation planned at position [i]. *)
Definition operation_at (r : DeploymentRunner E) (dl : DeploymentLog.t)
    (i : nat) : option Operation.t :=
  match DeploymentLog.operations dl !! i with
  | Some ol => collections r !! OperationLog.operation ol
  | None => None
  end.

(** The catalog entries of the plan's operations, in plan order. *)
Definition plan_operations (r : DeploymentRunner E) (dl : DeploymentLog.t)
  : list Operation.t :=
  omap (fun ol => collections r !! OperationLog.operation ol)
    (DeploymentLog.operations dl).

(** What the executor answers along a plan: for each operation log in
    turn, the state the executor returns for its operation, the
    executor being the one its previous call left, and the executor
    afterwards. A noop is not executed: it has no answer and leaves the
    executor as it is. The list ends at an operation that is not in the
    catalog. *)
Fixpoint executions (r : DeploymentRunner E) (e : E)
    (ols : list OperationLog.t) : list (option ExecutorState * E) :=
  match ols with
  | [] => []
  | ol :: ols' =>
      match collections r !! OperationLog.operation ol with
      | None => []
      | Some op =>
          if Operation.noop op then (None, e) :: executions r e ols'
          else
            let '(s, _, e') := execute r e op in
            (Some s, e') :: executions r e' ols'
      end
  end.

(** Every operation of the plan is in the catalog. *)
Definition known (r : DeploymentRunner E) (dl : DeploymentLog.t) : Prop :=
  forall i, i < length (DeploymentLog.operations dl) ->
    is_Some (operation_at r dl i).

(** The executor reports a success whatever it is asked and whatever
    its state. *)
Definition never_fails (r : DeploymentRunner E) : Prop :=
  forall e op, (execute r e op).1.1 = ExecSuccess.

(** The iterator is between two operations and the last one did not
    fail. *)
Definition ready (it : DeploymentIterator E) : Prop :=
  finished it = false /\ last_state it <> Some OperationStateEnum.FAILURE.

(** A config operation on the pair [p]. *)
Definition config_on (p : ServiceComponent) (op : Operation.t) : Prop :=
  Operation.action op = "config" /\ Operation.key op = p.

(** A start operation on the pair [p]. *)
Definition start_on (p : ServiceComponent) (op : Operation.t) : Prop :=
  Operation.action op = "start" /\ Operation.key op = p.

(** A start or restart operation on the pair [p]. *)
Definition start_or_restart_on (p : ServiceComponent) (op : Operation.t)
  : Prop :=
  (Operation.action op = "start" \/ Operation.action op = "restart")
  /\ Operation.key op = p.

(** The version logs among the elements a loop over the iterator got. *)
Definition emitted_logs
    (ys : list (OperationLog.t * option ComponentVersionLog.t))
  : list ComponentVersionLog.t :=
  omap snd ys.

(** The version logs of the pair [p] in a list. *)
Definition logs_for (p : ServiceComponent) (cvs : list ComponentVersionLog.t)
  : list ComponentVersionLog.t :=
  base.filter (fun c => ComponentVersionLog.key c = p) cvs.

(** The emission rule applied along operations that all succeed: what
    each one emits, from the working map [lc] and the emitted pairs
    [em]. *)
Fixpoint emissions (r : DeploymentRunner E) (dl_id : option Z)
    (ops : list Operation.t) (lc : gmap ServiceComponent string)
    (em : gset ServiceComponent) : list (option ComponentVersionLog.t) :=
  match ops with
  | [] => []
  | op :: ops' =>
      let '(cv, lc', em') :=
        emission r dl_id op OperationStateEnum.SUCCESS lc em in
      cv :: emissions r dl_id ops' lc' em'
  end.

End WithExecutor.

End Runner.

(* ===================================================================== *)
(** ** Plan: resuming a failed deployment *)
(* ===================================================================== *)

Module Plan.
Import Models.

(** Modelled from the spec: [index_of_first_failure], the position of
    the first operation log in state FAILURE, if any. *)
Fixpoint index_of_first_failure (ops : list OperationLog.t) : option nat :=
  match ops with
  | [] => None
  | ol :: ops' =>
      if decide (OperationLog.state ol = OperationStateEnum.FAILURE)
      then Some 0
      else S <$> index_of_first_failure ops'
  end.

(** Modelled from the spec: [DeploymentPlan.from_failed_deployment]
    is not among the sources (only the test that calls it is). The new
    plan, of type RESUME and in state PLANNED, holds the failed
    operation and every operation after it, in the same order; the
    spec gives the catalog no part in the construction, and an empty
    plan fails with [EmptyDeployment]. *)
Definition from_failed_deployment (collections : Collections)
    (failed : DeploymentLog.t) : result Exn DeploymentLog.t :=
  match index_of_first_failure (DeploymentLog.operations failed) with
  | None => Err EmptyDeployment
  | Some i =>
      Ok (DeploymentLog.mk None None None None None false
            DeploymentTypeEnum.RESUME DeploymentStateEnum.PLANNED
            None None
            (map OperationLog.planned
               (drop i (DeploymentLog.operation_names failed)))
            [])
  end.

End Plan.

(* ===================================================================== *)
(** ** Queries: [tdp/cli/queries.py] *)
(* ===================================================================== *)

Module Queries.
Import Models.

Module ServiceComponentLog.
(** Modelled from the spec: the mapped class [ServiceComponentLog] of
    [tdp.core.models] is not among the sources; its table has the
    columns the data model gives a component-version log, the component
    being nullable. *)
Record t := mk {
  deployment_id : Z;
  service : string;
  component : option string;
  version : string
}.

#[global] Instance eq_dec : EqDecision t.
Proof. solve_decision. Defined.

Definition key (r : t) : ServiceComponent := (service r, component r).
End ServiceComponentLog.

(** The database behind a session: the rows of each table, and how the
    engine places NULL when ordering ascending. *)
Record Session := mkSession {
  deployment_log : list DeploymentLog.t;
  operation_log : list OperationLog.t;
  service_component_log : list ServiceComponentLog.t;
  nulls_first : bool
}.

(** *** SQLAlchemy's [Query.one] and [Query.one_or_none] *)

Definition one {A : Type} (rows : list A) : result Exn A :=
  match rows with
  | [] => Err NoResultFound
  | [r] => Ok r
  | _ :: _ :: _ => Err MultipleResultsFound
  end.

Definition one_or_none {A : Type} (rows : list A) : result Exn (option A) :=
  match rows with
  | [] => Ok None
  | [r] => Ok (Some r)
  | _ :: _ :: _ => Err MultipleResultsFound
  end.

(** *** SQL's three-valued logic: [None] is UNKNOWN *)

Definition sql_and (a b : option bool) : option bool :=
  match a, b with
  | Some false, _ | _, Some false => Some false
  | Some true, Some true => Some true
  | _, _ => None
  end.

Definition sql_or (a b : option bool) : option bool :=
  match a, b with
  | Some true, _ | _, Some true => Some true
  | Some false, Some false => Some false
  | _, _ => None
  end.

(** [a = b] on nullable columns: UNKNOWN as soon as one side is NULL. *)
Definition sql_eq {A : Type} (eqb : A -> A -> bool) (a b : option A)
  : option bool :=
  match a, b with
  | Some x, Some y => Some (eqb x y)
  | _, _ => None
  end.

(** [x IN (subquery)]: the disjunction of the row comparisons. *)
Definition sql_in {A B : Type} (eq : A -> B -> option bool) (x : A)
    (rows : list B) : option bool :=
  foldr (fun y acc => sql_or (eq x y) acc) (Some false) rows.

(** [func.max] over a group: NULL for an empty group. *)
Definition sql_max (l : list Z) : option Z :=
  match l with
  | [] => None
  | x :: l' => Some (foldl Z.max x l')
  end.

(** *** [get_latest_success_service_component_version_query] *)

(** The subquery: [max(deployment_id), service, component] grouped by
    [(service, component)]; GROUP BY puts NULL components in one group. *)
Definition latest_deployed_service_component
    (rows : list ServiceComponentLog.t)
  : list (option Z * string * option string) :=
  map (fun k =>
         (sql_max (map ServiceComponentLog.deployment_id
                     (filter (fun r => ServiceComponentLog.key r = k) rows)),
          k.1, k.2))
      (remove_dups (map ServiceComponentLog.key rows)).

(** [tuple_(deployment_id, service, component) = (m, s, c)] *)
Definition tuple3_eq (r : ServiceComponentLog.t)
    (g : option Z * string * option string) : option bool :=
  sql_and
    (sql_and
       (sql_eq Z.eqb (Some (ServiceComponentLog.deployment_id r)) g.1.1)
       (sql_eq String.eqb (Some (ServiceComponentLog.service r)) (Some g.1.2)))
    (sql_eq String.eqb (ServiceComponentLog.component r) g.2).

(** [tuple_(deployment_id, service) = (m, s)] *)
Definition tuple2_eq (r : ServiceComponentLog.t)
    (g : option Z * string) : option bool :=
  sql_and
    (sql_eq Z.eqb (Some (ServiceComponentLog.deployment_id r)) g.1)
    (sql_eq String.eqb (Some (ServiceComponentLog.service r)) (Some g.2)).

(** The [filter(or_(...))] clause; a row is kept when it is TRUE. *)
Definition latest_filter (sub : list (option Z * string * option string))
    (r : ServiceComponentLog.t) : option bool :=
  sql_or
    (* components with the latest deployment *)
    (sql_in tuple3_eq r sub)
    (* services with the latest deployment (no component): the
       component column is removed from the subquery *)
    (sql_and
       (sql_in tuple2_eq r (map (fun g => (g.1.1, g.1.2)) sub))
       (Some (bool_decide (ServiceComponentLog.component r = None)))).

(** Ascending order on a nullable text column. *)
Definition nullable_leb (nulls_first : bool) (a b : option string) : bool :=
  match a, b with
  | None, None => true
  | None, Some _ => nulls_first
  | Some _, None => negb nulls_first
  | Some x, Some y => String.leb x y
  end.

(** [order_by(desc(deployment_id), service, component)] *)
Definition order_leb (nulls_first : bool) (a b : ServiceComponentLog.t)
  : bool :=
  if Z.ltb (ServiceComponentLog.deployment_id b)
           (ServiceComponentLog.deployment_id a) then true
  else if Z.ltb (ServiceComponentLog.deployment_id a)
                (ServiceComponentLog.deployment_id b) then false
  else
    match String.compare (ServiceComponentLog.service a)
                         (ServiceComponentLog.service b) with
    | Lt => true
    | Gt => false
    | Eq => nullable_leb nulls_first (ServiceComponentLog.component a)
              (ServiceComponentLog.component b)
    end.

(** The selected columns; [func.substr(version, 1, 7)]. *)
Definition projection (r : ServiceComponentLog.t)
  : Z * string * option string * string :=
  (ServiceComponentLog.deployment_id r, ServiceComponentLog.service r,
   ServiceComponentLog.component r,
   String.substring 0 7 (ServiceComponentLog.version r)).

Definition get_latest_success_service_component_version_query
    (session : Session) : list (Z * string * option string * string) :=
  let rows := service_component_log session in
  let sub := latest_deployed_service_component rows in
  map projection
    (merge_sort (fun a b => Is_true (order_leb (nulls_first session) a b))
       (filter (fun r => latest_filter sub r = Some true) rows)).

(** *** The lookups *)

(** Ascending order on the nullable integer key; NULL is smallest. *)
Definition id_leb (a b : option Z) : bool :=
  match a, b with
  | None, _ => true
  | Some _, None => false
  | Some x, Some y => Z.leb x y
  end.

(** [order_by(DeploymentLog.id.desc())] *)
Definition order_by_id_desc (rows : list DeploymentLog.t)
  : list DeploymentLog.t :=
  merge_sort
    (fun a b => Is_true (id_leb (DeploymentLog.id b) (DeploymentLog.id a)))
    rows.

Definition get_deployments (session : Session) (limit offset : nat)
  : list DeploymentLog.t :=
  take limit (drop offset (order_by_id_desc (deployment_log session))).

Definition get_deployment (session : Session) (deployment_id : Z)
  : result Exn DeploymentLog.t :=
  match one (filter (fun d => DeploymentLog.id d = Some deployment_id)
               (deployment_log session)) with
  | Ok d => Ok d
  | Err NoResultFound =>
      Err (Exception (DeploymentDoesNotExist deployment_id) NoResultFound)
  | Err e => Err e
  end.

Definition get_last_deployment (session : Session)
  : result Exn DeploymentLog.t :=
  match one (take 1 (order_by_id_desc (deployment_log session))) with
  | Ok d => Ok d
  | Err NoResultFound => Err (Exception NoDeployments NoResultFound)
  | Err e => Err e
  end.

Definition get_planned_deployment_log (session : Session)
  : result Exn (option DeploymentLog.t) :=
  one_or_none
    (filter (fun d => DeploymentLog.state d = DeploymentStateEnum.PLANNED)
       (deployment_log session)).

(** [filter_by(deployment_id=deployment_id, operation=operation_name)] *)
Definition selects (deployment_id : Z) (operation_name : string)
    (o : OperationLog.t) : Prop :=
  OperationLog.deployment_id o = Some deployment_id
  /\ OperationLog.operation o = operation_name.

#[global] Instance selects_dec (deployment_id : Z) (operation_name : string)
    (o : OperationLog.t) : Decision (selects deployment_id operation_name o).
Proof. unfold selects. apply _. Defined.

Definition get_operation_log (session : Session) (deployment_id : Z)
    (operation_name : string) : result Exn OperationLog.t :=
  match one (filter (selects deployment_id operation_name)
               (operation_log session)) with
  | Ok o => Ok o
  | Err NoResultFound =>
      Err (Exception (OperationDoesNotExist operation_name deployment_id)
             NoResultFound)
  | Err e => Err e
  end.

(** *** Reading the results *)

(** The row of the table a result row stands for, as far as the
    [order_by] clause reads it. *)
Definition row_of (x : Z * string * option string * string)
  : ServiceComponentLog.t :=
  ServiceComponentLog.mk x.1.1.1 x.1.1.2 x.1.2 x.2.

(** The order of the [order_by] clause, on result rows. *)
Definition result_leb (nulls_first : bool)
    (x y : Z * string * option string * string) : bool :=
  order_leb nulls_first (row_of x) (row_of y).

(** [m] is the greatest deployment id among the rows of the pair [k]. *)
Definition group_max (rows : list ServiceComponentLog.t)
    (k : ServiceComponent) (m : Z) : Prop :=
  (exists r, r ∈ rows /\ ServiceComponentLog.key r = k
             /\ ServiceComponentLog.deployment_id r = m)
  /\ forall r, r ∈ rows -> ServiceComponentLog.key r = k ->
       (ServiceComponentLog.deployment_id r <= m)%Z.

(** The rows in state PLANNED. *)
Definition is_planned (d : DeploymentLog.t) : Prop :=
  DeploymentLog.state d = DeploymentStateEnum.PLANNED.

End Queries.

(* ===================================================================== *)
(** ** PlanDag: [tdp/cli/commands/plan/dag.py] *)
(* ===================================================================== *)

Module PlanDag.
Import Models Queries.

(** *** The filter-type flags *)

(** The two flag options that share the parameter [filter_type]. *)
Inductive FilterFlag :=
| glob    (* --glob, -g *)
| regex.  (* --regex, -r *)

(** The [flag_value] each option is declared with. *)
Definition flag_value (f : FilterFlag) : string :=
  match f with
  | glob => FilterTypeEnum.name FilterTypeEnum.REGEX
  | regex => FilterTypeEnum.name FilterTypeEnum.REGEX
  end.

(** The [help] text each option is declared with. *)
Definition help (f : FilterFlag) : string :=
  match f with
  | glob => "Filter expression matched as a glob."
  | regex => "Filter expression matched as a regex."
  end.

(** The callback of both options. *)
Definition validate_filtertype (value : option string)
  : result Exn (option FilterTypeEnum.t) :=
  match value with
  | Some v =>
      match FilterTypeEnum.getitem v with
      | Some f => Ok (Some f)
      | None => Err (KeyError v)
      end
  | None => Ok None
  end.

(** click's handling of the flags given on the command line: the
    parameter receives the [flag_value] of the flag given (of the last
    one when several are), and nothing when none is; the callback then
    converts it. *)
Definition filter_type_of_flags (flags : list FilterFlag)
  : result Exn (option FilterTypeEnum.t) :=
  validate_filtertype (flag_value <$> last flags).

(** *** The command *)

(** [str.split(",")] *)
Fixpoint split_comma (s : string) : list string :=
  match s with
  | EmptyString => [EmptyString]
  | String c s' =>
      if Ascii.eqb c "," then EmptyString :: split_comma s'
      else
        match split_comma s' with
        | h :: t => String c h :: t
        | [] => [String c EmptyString]
        end
  end.

(** [",".join(names)] *)
Fixpoint join_comma (names : list string) : string :=
  match names with
  | [] => EmptyString
  | [n] => n
  | n :: rest => n ++ "," ++ join_comma rest
  end.

(** Truthiness of an optional string argument: given and not empty. *)
Definition truthy (s : option string) : bool :=
  match s with
  | Some (String _ _) => true
  | _ => false
  end.

(** The value of [sources] (or [targets]) after [if sources: sources =
    sources.split(",")]: the list of names when the argument is truthy;
    otherwise the argument as it came, which names nothing. *)
Definition split_arg (s : option string) : option (list string) :=
  match s with
  | Some (String c s') => Some (split_comma (String c s'))
  | Some EmptyString => Some []
  | None => None
  end.

(** The names the command adds to [set_nodes] for one argument. *)
Definition listed (s : option string) : list string :=
  if truthy s then default [] (split_arg s) else [].

(** The arguments of one invocation. *)
Record Args := mkArgs {
  sources : option string;
  targets : option string;
  filter : option string;
  filter_flags : list FilterFlag;
  restart : bool;
  collections : Collections;
  vars : string;
  vars_exists : bool
}.

(** The names the command puts in [set_nodes]: the listed sources and
    the listed targets. *)
Definition listed_nodes (a : Args) : list string :=
  (listed (sources a) ++ listed (targets a))%list.

(** What the command writes with [click.echo]. *)
Inductive Echo :=
| CreatingFrom (sources : list string)
| CreatingTo (targets : list string)
| CreatingWholeDag
| PlanCreated.

(** The observable effects of the command, in order. *)
Inductive Event :=
| Echoed (e : Echo)
| PlanBuilt (d : DeploymentLog.t)
| Merged (d : DeploymentLog.t)
| Committed.

(** The next value of the integer primary key of the deployment table:
    one more than the greatest key of the table, and 1 when the table
    has none. *)
Definition next_id (table : list DeploymentLog.t) : Z :=
  match omap DeploymentLog.id table with
  | [] => 1%Z
  | i :: ids => Z.succ (foldr Z.max i ids)
  end.

(** Modelled from the spec: the mapping of the models (the relationships
    of [DeploymentLog] and their cascades, in [tdp.core.models]) is not
    among the sources. The spec has a deployment own its operation logs
    and version logs, which refer to it by [deployment_id]: the object
    as the store holds it under the key [i] has [i] as id, and its
    operation logs and version logs have [i] as deployment id. *)
Definition persisted (i : Z) (d : DeploymentLog.t) : DeploymentLog.t :=
  DeploymentLog.set_component_version
    (map (fun c => ComponentVersionLog.mk (Some i)
                     (ComponentVersionLog.service c)
                     (ComponentVersionLog.component c)
                     (ComponentVersionLog.version c))
       (DeploymentLog.component_version d))
    (DeploymentLog.set_operations
       (map (fun o => OperationLog.mk (Some i) (OperationLog.operation o)
                        (OperationLog.state o) (OperationLog.start_time o)
                        (OperationLog.end_time o) (OperationLog.logs o))
          (DeploymentLog.operations d))
       (DeploymentLog.set_id (Some i) d)).

(** The row of the version table for a version log of deployment [i]. *)
Definition version_row (i : Z) (c : ComponentVersionLog.t)
  : ServiceComponentLog.t :=
  ServiceComponentLog.mk i (ComponentVersionLog.service c)
    (ComponentVersionLog.component c) (ComponentVersionLog.version c).

(** The deployment table once [row] is stored under the key [i]: the
    row that has the key is overwritten, and a row is added when none
    has it. *)
Definition merge_row (i : Z) (row : DeploymentLog.t)
    (table : list DeploymentLog.t) : list DeploymentLog.t :=
  if existsb (fun r => bool_decide (DeploymentLog.id r = Some i)) table
  then map (fun r => if decide (DeploymentLog.id r = Some i)
                     then row else r) table
  else table ++ [row].

(** Modelled from the spec: [session.merge(deployment_log)], made
    durable by [session.commit()]. What merging a deployment does to
    the logs it owns is decided by the mapping, which is not among the
    sources. The spec has a deployment get its id on first persist, and
    planning again replace the contents of the PLANNED deployment under
    the same id: the state of the given object is copied onto the row
    that has its primary key, a new row is added when there is none
    (under the next key when the object has no id), and the operation
    logs and version logs of the object replace those the store held
    for that key. *)
Definition merge (d : DeploymentLog.t) (s : Session) : Session :=
  let i := default (next_id (deployment_log s)) (DeploymentLog.id d) in
  let row := persisted i d in
  mkSession
    (merge_row i row (deployment_log s))
    (base.filter (fun o => OperationLog.deployment_id o <> Some i)
       (operation_log s)
     ++ DeploymentLog.operations row)
    (base.filter (fun c => ServiceComponentLog.deployment_id c <> i)
       (service_component_log s)
     ++ map (version_row i) (DeploymentLog.component_version row))
    (nulls_first s).

(** The invariant of the deployment table: at most one row is in state
    PLANNED. *)
Definition at_most_one_planned (table : list DeploymentLog.t) : Prop :=
  length (base.filter
            (fun d => DeploymentLog.state d = DeploymentStateEnum.PLANNED)
            table) <= 1.

Module Utils.
(** Modelled from the spec: the command imports
    [get_planned_deployment_log] from the sibling module [utils], which
    is not among the sources. The spec has this lookup give the unique
    row in state PLANNED, or nothing, the store keeping at most one row
    in that state by a unique index; on such a table that is what
    [one_or_none] gives. A table with several PLANNED rows is outside
    the spec; there the lookup is taken to raise, as [one_or_none]
    does. *)
Definition get_planned_deployment_log (session : Session)
  : result Exn (option DeploymentLog.t) :=
  one_or_none (base.filter is_planned (deployment_log session)).
End Utils.

Section WithDag.
(** The collaborators that are not among the sources: the DAG built
    from the collections, the names of its operations, and the plan
    constructor [DeploymentPlan.from_dag]. *)
Context {DagT : Type}.
Variable Dag : Collections -> result Exn DagT.
Variable operations : DagT -> gset string.
Variable from_dag :
  DagT -> option (list string) -> option (list string) ->
  option string -> option FilterTypeEnum.t -> bool ->
  result Exn DeploymentLog.t.

(** The body of the [with session_class() as session:] block: the id
    of the PLANNED deployment, when there is one, is given to the new
    plan, which is then merged and committed. *)
Definition persist (deployment_log : DeploymentLog.t) (db : Session)
  : result Exn unit * Session * list Event :=
  match Utils.get_planned_deployment_log db with
  | Err e => (Err e, db, [])
  | Ok planned_deployment_log =>
      let deployment_log :=
        match planned_deployment_log with
        | Some p => DeploymentLog.set_id (DeploymentLog.id p) deployment_log
        | None => deployment_log
        end in
      (Ok tt, merge deployment_log db,
       [Merged deployment_log; Committed; Echoed PlanCreated])
  end.

(** The command [dag], after click has parsed its options:
    the result, the database afterwards and the effects. *)
Definition dag (a : Args) (filter_type : option FilterTypeEnum.t)
    (db : Session) : result Exn unit * Session * list Event :=
  if negb (vars_exists a) then
    (Err (BadParameter (VarsDoesNotExist (vars a))), db, [])
  else
    match Dag (collections a) with
    | Err e => (Err e, db, [])
    | Ok dag =>
        let set_nodes : gset string :=
          list_to_set (listed (sources a))
            ∪ list_to_set (listed (targets a)) in
        let set_difference := set_nodes ∖ operations dag in
        if negb (bool_decide (set_difference = ∅)) then
          (Err (BadParameter (NotValidNodes set_difference)), db, [])
        else
          let e1 :=
            if truthy (sources a) then
              CreatingFrom (default [] (split_arg (sources a)))
            else if truthy (targets a) then
              CreatingTo (default [] (split_arg (targets a)))
            else CreatingWholeDag in
          match from_dag dag (split_arg (sources a))
                  (split_arg (targets a)) (filter a) filter_type
                  (restart a) with
          | Err e => (Err (ClickException e), db, [Echoed e1])
          | Ok deployment_log =>
              let '(r, db', ev) := persist deployment_log db in
              (r, db', Echoed e1 :: PlanBuilt deployment_log :: ev)
          end
    end.

(** An invocation from the command line: the flags are converted,
    then the command runs. *)
Definition invoke (a : Args) (db : Session)
  : result Exn unit * Session * list Event :=
  match filter_type_of_flags (filter_flags a) with
  | Err e => (Err e, db, [])
  | Ok filter_type => dag a filter_type db
  end.

End WithDag.

End PlanDag.

(* ===================================================================== *)
(** ** Scenario: the fixtures of the tests *)
(* ===================================================================== *)

Module Scenario.
Import Models Runner.

(** A catalog entry that targets no host. *)
Definition op (name service : string) (component : option string)
    (action : string) (noop : bool) : Operation.t :=
  Operation.mk name service component action noop [].

(** Modelled from the spec: the fixture [minimal_collections] is not
    among the sources; the end-to-end scenarios name its operations. *)
Definition minimal_collections : Collections :=
  list_to_map
    (map (fun o => (Operation.name o, o))
       [op "mock_install" "mock" None "install" false;
        op "mock_config" "mock" None "config" false;
        op "mock_start" "mock" None "start" false;
        op "mock_restart" "mock" None "restart" false;
        op "mock_init" "mock" None "init" true;
        op "mock_node_config" "mock" (Some "node") "config" false;
        op "mock_node_start" "mock" (Some "node") "start" false;
        op "mock_node_restart" "mock" (Some "node") "restart" false]).

(** The cluster variables of the tests, reduced to their hash. *)
Definition cluster_variables (service : string) (component : option string)
  : string :=
  match component with
  | Some c => "hash-of-" ++ service ++ "_" ++ c
  | None => "hash-of-" ++ service
  end.

(** [MockExecutor.execute]: always a success, the log names the
    playbook. *)
Definition MockExecutor_execute (self : unit) (o : Operation.t)
  : ExecutorState * bytes * unit :=
  (ExecSuccess,
   list_byte_of_string (Operation.name o ++ " LOG SUCCESS"), self).

(** [FailingExecutor.execute]: [self.count] is the state; the first
    call succeeds and counts, every later call fails. *)
Definition FailingExecutor_execute (count : nat) (o : Operation.t)
  : ExecutorState * bytes * nat :=
  if Nat.ltb 0 count then
    (ExecFailure,
     list_byte_of_string (Operation.name o ++ " LOG FAILURE"), count)
  else
    (ExecSuccess,
     list_byte_of_string (Operation.name o ++ " LOG SUCCESS"), S count).

(** The states an executor returns when it is called on each operation
    in turn, and the executor afterwards. *)
Fixpoint execute_all {E : Type}
    (execute : E -> Operation.t -> ExecutorState * bytes * E)
    (self : E) (ops : list Operation.t) : list ExecutorState * E :=
  match ops with
  | [] => ([], self)
  | o :: ops' =>
      let '(st, _, self') := execute self o in
      let '(sts, self'') := execute_all execute self' ops' in
      (st :: sts, self'')
  end.

(** The fixtures [deployment_runner] and [failing_deployment_runner]. *)
Definition deployment_runner : DeploymentRunner unit :=
  mkRunner minimal_collections MockExecutor_execute cluster_variables [].

Definition failing_deployment_runner : DeploymentRunner nat :=
  mkRunner minimal_collections FailingExecutor_execute cluster_variables [].

(** A planned deployment over the given operation names, in order. *)
Definition planned (ty : DeploymentTypeEnum.t) (names : list string)
  : DeploymentLog.t :=
  DeploymentLog.mk None None None None None false ty
    DeploymentStateEnum.PLANNED None None
    (map OperationLog.planned names) [].

(** The plan of the whole DAG: the eight operations of the catalog. *)
Definition dag_plan : DeploymentLog.t :=
  planned DeploymentTypeEnum.DAG
    ["mock_install"; "mock_config"; "mock_start"; "mock_restart";
     "mock_node_config"; "mock_node_start"; "mock_node_restart";
     "mock_init"].

(** Two deployments of the service [mock]: the first emitted a
    service-level and a component-level version log, the second only a
    service-level one. *)
Definition version_rows : list Queries.ServiceComponentLog.t :=
  [Queries.ServiceComponentLog.mk 1 "mock" None "1111111aaaa";
   Queries.ServiceComponentLog.mk 1 "mock" (Some "node") "1111111bbbb";
   Queries.ServiceComponentLog.mk 2 "mock" None "2222222cccc"].

(** The operation logs of deployment 1, planned from the operations
    [mock_node_config; mock_node_start; mock_node_config;
    mock_node_restart] and run to success. *)
Definition operation_rows : list OperationLog.t :=
  [OperationLog.mk (Some 1%Z) "mock_node_config" OperationStateEnum.SUCCESS
     (Some 0) (Some 1) (Some []);
   OperationLog.mk (Some 1%Z) "mock_node_start" OperationStateEnum.SUCCESS
     (Some 2) (Some 3) (Some []);
   OperationLog.mk (Some 1%Z) "mock_node_config" OperationStateEnum.SUCCESS
     (Some 4) (Some 5) (Some []);
   OperationLog.mk (Some 1%Z) "mock_node_restart" OperationStateEnum.SUCCESS
     (Some 6) (Some 7) (Some [])].

(** The operation logs of a deployment that failed at its second
    operation. *)
Definition failed_operations : list OperationLog.t :=
  [OperationLog.mk None "mock_install" OperationStateEnum.SUCCESS
     (Some 0) (Some 1) (Some []);
   OperationLog.mk None "mock_config" OperationStateEnum.FAILURE
     (Some 2) (Some 3) (Some []);
   OperationLog.planned "mock_start";
   OperationLog.planned "mock_init"].

(** A deployment table: deployment 1 has succeeded, deployment 2 is the
    planned one. *)
Definition deployment_rows : list DeploymentLog.t :=
  [DeploymentLog.set_id (Some 1%Z)
     (DeploymentLog.set_state DeploymentStateEnum.SUCCESS
        (planned DeploymentTypeEnum.OPERATIONS
           ["mock_node_config"; "mock_node_start"; "mock_node_config";
            "mock_node_restart"]));
   DeploymentLog.set_id (Some 2%Z)
     (planned DeploymentTypeEnum.OPERATIONS ["mock_config"; "mock_start"])].

Definition session : Queries.Session :=
  Queries.mkSession deployment_rows operation_rows version_rows true.

(** A session whose only deployment has succeeded: none is planned. *)
Definition finished_session : Queries.Session :=
  Queries.mkSession (take 1 deployment_rows) operation_rows version_rows
    true.

(** Stand-ins for the collaborators of the command [plan dag] in the
    examples: the DAG is the catalog itself, its operations are the
    catalog's names, and the plan holds the listed sources in order. *)
Definition Dag (c : Collections) : result Exn Collections := Ok c.

Definition operations (dag : Collections) : gset string := dom dag.

Definition from_dag (dag : Collections) (sources targets : option (list string))
    (filter_expression : option string)
    (filter_type : option FilterTypeEnum.t) (restart : bool)
  : result Exn DeploymentLog.t :=
  match default [] sources with
  | [] => Err EmptyDeployment
  | names => Ok (planned DeploymentTypeEnum.DAG names)
  end.

Definition args (sources : option string) (vars_exists : bool)
  : PlanDag.Args :=
  PlanDag.mkArgs sources None None [] false minimal_collections
    "tdp_vars" vars_exists.

End Scenario.

(* ===================================================================== *)
(** * Properties *)
(* ===================================================================== *)

(** ** [StateEnum.has_value] *)

Section HasValue.
Import Executor.

Lemma has_value_unfold (v : PyValue) :
  has_value v = py_eq_str v "Success" || py_eq_str v "Failure".
Proof. unfold has_value. simpl. by rewrite orb_false_r. Qed.

(** C10. [StateEnum.has_value v] is true exactly when [v] is one of
    the strings "Success" and "Failure", the members' values; neither
    a member's name nor a member itself has the value. *)
Theorem has_value_iff_member_value :
  (forall v : PyValue,
      has_value v = true <-> v = PyStr "Success" \/ v = PyStr "Failure")
  /\ (forall m : StateEnum, has_value (PyStr (name m)) = false)
  /\ (forall m : StateEnum, has_value (PyMember m) = false).
Proof.
  split; [| split].
  - intros v. rewrite has_value_unfold, orb_true_iff. split.
    + intros [H | H]; destruct v; simpl in H; try discriminate;
        apply String.eqb_eq in H; subst; auto.
    + intros [-> | ->]; simpl; auto.
  - intros []; reflexivity.
  - intros []; reflexivity.
Qed.

End HasValue.

(** ** The filter-type flags of [plan dag] *)

Section FilterFlags.
Import Models PlanDag.

Lemma filter_type_of_flags_cases (flags : list FilterFlag) :
  filter_type_of_flags flags = Ok None
  \/ filter_type_of_flags flags = Ok (Some FilterTypeEnum.REGEX).
Proof.
  unfold filter_type_of_flags.
  destruct (last flags) as [[]|]; simpl; auto.
Qed.

(** C6. On the command line [--glob] gives the command the filter type
    REGEX, as [--regex] does: both flags are declared with the flag value
    [FilterTypeEnum.REGEX.name], although the help of [--glob] says the
    expression is matched as a glob; no choice of flags gives GLOB. *)
Theorem glob_flag_gives_regex :
  filter_type_of_flags [glob] = Ok (Some FilterTypeEnum.REGEX)
  /\ filter_type_of_flags [regex] = Ok (Some FilterTypeEnum.REGEX)
  /\ help glob = "Filter expression matched as a glob."
  /\ forall flags, filter_type_of_flags flags <> Ok (Some FilterTypeEnum.GLOB).
Proof.
  repeat split.
  intros flags H.
  destruct (filter_type_of_flags_cases flags) as [E | E];
    rewrite E in H; discriminate.
Qed.

End FilterFlags.

(** ** The latest-version query *)

Section LatestVersions.
Import Models Queries.
Local Open Scope Z_scope.

Lemma sql_or_true_r (a : option bool) : sql_or a (Some true) = Some true.
Proof. by destruct a as [[]|]. Qed.

Lemma sql_in_true {A B : Type} (eq : A -> B -> option bool) (x : A)
    (rows : list B) (y : B) :
  y ∈ rows -> eq x y = Some true -> sql_in eq x rows = Some true.
Proof.
  intros Hin Heq. induction rows as [|z rows IH]; simpl.
  - by apply elem_of_nil in Hin.
  - apply elem_of_cons in Hin as [<- | Hin].
    + by rewrite Heq.
    + rewrite (IH Hin). apply sql_or_true_r.
Qed.

Lemma foldl_max_spec (l : list Z) (x : Z) :
  (foldl Z.max x l = x \/ foldl Z.max x l ∈ l)
  /\ x <= foldl Z.max x l
  /\ forall y, y ∈ l -> y <= foldl Z.max x l.
Proof.
  revert x. induction l as [|a l IH]; intros x; simpl.
  - split; [by left|]. split; [lia|]. intros y Hy.
    by apply elem_of_nil in Hy.
  - destruct (IH (Z.max x a)) as (Hmem & Hge & Hall).
    split; [|split; [lia|]].
    + destruct Hmem as [Hm|Hm]; [|right; by right].
      rewrite Hm. destruct (Z.max_spec x a) as [[_ ->]|[_ ->]];
        [right; left|by left].
    + intros y Hy. apply elem_of_cons in Hy as [-> | Hy]; [lia|auto].
Qed.

(** [func.max] over a group that is not empty is its greatest value. *)
Lemma sql_max_spec (l : list Z) (x : Z) :
  x ∈ l ->
  exists m, sql_max l = Some m /\ m ∈ l /\ forall y, y ∈ l -> y <= m.
Proof.
  destruct l as [|a l]; intros Hx; [by apply elem_of_nil in Hx|].
  simpl. destruct (foldl_max_spec l a) as (Hmem & Hge & Hall).
  eexists. split; [done|]. split.
  - destruct Hmem as [-> | Hm]; [left | by right].
  - intros y Hy. apply elem_of_cons in Hy as [-> | Hy]; auto.
Qed.

(** What the query does return of the rows it is meant to return: every
    row that has the greatest deployment id of its (service, component)
    pair, a null component included, is in the result. *)
Lemma latest_query_returns_latest_rows (session : Session)
    (r : ServiceComponentLog.t) :
  r ∈ service_component_log session ->
  (forall r', r' ∈ service_component_log session ->
     ServiceComponentLog.key r' = ServiceComponentLog.key r ->
     ServiceComponentLog.deployment_id r'
     <= ServiceComponentLog.deployment_id r) ->
  projection r
  ∈ get_latest_success_service_component_version_query session.
Proof.
  intros Hin Hmax.
  unfold get_latest_success_service_component_version_query.
  change (map projection ?l) with (projection <$> l).
  apply list_elem_of_fmap_2. rewrite merge_sort_Permutation.
  apply list_elem_of_filter. split; [|done].
  set (rows := service_component_log session) in *.
  set (group := base.filter
                  (fun x => ServiceComponentLog.key x
                            = ServiceComponentLog.key r) rows).
  assert (Hr : ServiceComponentLog.deployment_id r
               ∈ map ServiceComponentLog.deployment_id group).
  { change (map ?f ?l) with (f <$> l). apply list_elem_of_fmap_2.
    by apply list_elem_of_filter. }
  destruct (sql_max_spec _ _ Hr) as (m & Hm & Hmin & Hge).
  assert (m = ServiceComponentLog.deployment_id r) as ->.
  { apply Z.le_antisymm; [|by apply Hge].
    change (map ?f ?l) with (f <$> l) in Hmin.
    apply list_elem_of_fmap in Hmin as (r' & -> & Hr').
    apply list_elem_of_filter in Hr' as [Hk Hr']. by apply Hmax. }
  set (g := (sql_max (map ServiceComponentLog.deployment_id group),
             (ServiceComponentLog.key r).1, (ServiceComponentLog.key r).2)).
  assert (Hg : g ∈ latest_deployed_service_component rows).
  { unfold latest_deployed_service_component.
    change (map ?f ?l) with (f <$> l).
    apply (list_elem_of_fmap_2' _ _ (ServiceComponentLog.key r));
      [|reflexivity].
    apply elem_of_remove_dups. by apply list_elem_of_fmap_2. }
  unfold latest_filter.
  destruct (ServiceComponentLog.component r) as [c|] eqn:Hc.
  - rewrite (sql_in_true tuple3_eq r _ g Hg); [done|].
    unfold tuple3_eq, g. simpl. rewrite Hm, Hc. simpl.
    by rewrite Z.eqb_refl, !String.eqb_refl.
  - rewrite (sql_in_true tuple2_eq r _ (g.1.1, g.1.2)).
    + simpl. apply sql_or_true_r.
    + change (map ?f ?l) with (f <$> l).
      apply (list_elem_of_fmap_2' _ _ g); [exact Hg | reflexivity].
    + unfold tuple2_eq, g. simpl. rewrite Hm. simpl.
      by rewrite Z.eqb_refl, String.eqb_refl.
Qed.

(** Every row of the result is a row of the table with its version cut
    to its first seven characters. *)
Lemma latest_query_truncates (session : Session)
    (x : Z * string * option string * string) :
  x ∈ get_latest_success_service_component_version_query session ->
  exists r,
    r ∈ service_component_log session
    /\ x = (ServiceComponentLog.deployment_id r,
            ServiceComponentLog.service r, ServiceComponentLog.component r,
            String.substring 0 7 (ServiceComponentLog.version r)).
Proof.
  unfold get_latest_success_service_component_version_query.
  change (map projection ?l) with (projection <$> l).
  intros Hx. apply list_elem_of_fmap in Hx as (r & -> & Hr).
  rewrite merge_sort_Permutation in Hr.
  apply list_elem_of_filter in Hr as [_ Hr]. by exists r.
Qed.

Lemma order_leb_total (nf : bool) :
  Total (fun a b : ServiceComponentLog.t => Is_true (order_leb nf a b)).
Proof.
  intros a b. unfold order_leb.
  destruct (Z.ltb_spec (ServiceComponentLog.deployment_id b)
              (ServiceComponentLog.deployment_id a));
    destruct (Z.ltb_spec (ServiceComponentLog.deployment_id a)
                (ServiceComponentLog.deployment_id b));
    simpl; auto; try lia.
  rewrite (String.compare_antisym (ServiceComponentLog.service b)
             (ServiceComponentLog.service a)).
  destruct (String.compare (ServiceComponentLog.service a)
              (ServiceComponentLog.service b)); simpl; auto.
  destruct (ServiceComponentLog.component a) as [x|],
    (ServiceComponentLog.component b) as [y|], nf; simpl; auto.
  all: destruct (String.leb_total x y) as [-> | ->]; auto.
Qed.

(** The rows of the result come in the order of the [order_by] clause:
    the result is the projection of a list sorted by descending
    deployment id, then service, then component. *)
Lemma latest_query_sorted (session : Session) :
  exists rows,
    get_latest_success_service_component_version_query session
    = map projection rows
    /\ Sorted (fun a b => Is_true (order_leb (nulls_first session) a b))
         rows.
Proof.
  eexists. split; [reflexivity|].
  apply (@Sorted_merge_sort _ _ _ (order_leb_total (nulls_first session))).
Qed.

(** C5. On a table where the service [mock] has service-level rows for
    deployments 1 and 2 and a component row for deployment 1, the query
    returns the service-level row of deployment 1 besides that of
    deployment 2: 1 is the maximum of the pair (mock, node), and the
    second branch of the filter compares with the maxima of all the
    groups of the service. *)
Theorem latest_query_keeps_stale_service_row (nf : bool) :
  let result :=
    get_latest_success_service_component_version_query
      (mkSession [] [] Scenario.version_rows nf) in
  In (2, "mock", None, "2222222") result
  /\ In (1, "mock", None, "1111111") result
  /\ length result = 3%nat.
Proof. destruct nf; vm_compute; intuition. Qed.

End LatestVersions.

(** ** The lookups of the query layer *)

Section FilterLemmas.
Context {A : Type} (P : A -> Prop) `{Pdec : !forall x, Decision (P x)}.

Lemma filter_none (l : list A) :
  (forall x, x ∈ l -> ~ P x) -> filter P l = [].
Proof.
  induction l as [|y l IH]; intros Hno; [done|].
  rewrite filter_cons_False by (apply Hno; left).
  apply IH. intros x Hx. apply Hno. by right.
Qed.

Lemma filter_unique_position (l : list A) (j : nat) (x : A) :
  l !! j = Some x -> P x ->
  (forall k y, l !! k = Some y -> P y -> k = j) ->
  filter P l = [x].
Proof.
  revert j. induction l as [|y l IH]; intros j Hj Px Huniq; [done|].
  destruct j as [|j]; simpl in Hj.
  - injection Hj as ->. rewrite filter_cons_True by done.
    f_equal. apply filter_none. intros z Hz Pz.
    apply list_elem_of_lookup_1 in Hz as [k Hk].
    specialize (Huniq (S k) z Hk Pz). discriminate.
  - rewrite filter_cons_False.
    + apply (IH j); [done..|]. intros k z Hk Pz.
      specialize (Huniq (S k) z Hk Pz). by injection Huniq.
    + intros Py. specialize (Huniq 0%nat y eq_refl Py). discriminate.
Qed.

Lemma filter_two_positions (l : list A) (j k : nat) (x y : A) :
  j <> k -> l !! j = Some x -> l !! k = Some y -> P x -> P y ->
  exists a b rest, filter P l = a :: b :: rest.
Proof.
  assert (Hone : forall (l : list A) i z,
             l !! i = Some z -> P z -> exists a rest, filter P l = a :: rest).
  { clear. intros l. induction l as [|h l IH]; intros i z Hi Pz; [done|].
    destruct (decide (P h)) as [Ph|Ph].
    - rewrite filter_cons_True by done. eauto.
    - rewrite filter_cons_False by done.
      destruct i as [|i]; simpl in Hi; [by injection Hi as ->|]. eauto. }
  revert j k. induction l as [|h l IH]; intros j k Hne Hj Hk Px Py; [done|].
  destruct (decide (P h)) as [Ph|Ph].
  - rewrite filter_cons_True by done.
    destruct j as [|j], k as [|k]; simpl in *; try done.
    + destruct (Hone l k y Hk Py) as (a & rest & ->). eauto.
    + destruct (Hone l j x Hj Px) as (a & rest & ->). eauto.
    + destruct (Hone l j x Hj Px) as (a & rest & ->). eauto.
  - rewrite filter_cons_False by done.
    destruct j as [|j], k as [|k]; simpl in *; try done.
    + by injection Hj as ->.
    + by injection Hk as ->.
    + apply (IH j k); auto.
Qed.

End FilterLemmas.

Section Lookups.
Import Models Queries.

Lemma id_desc_total :
  Total (fun a b : DeploymentLog.t =>
           Is_true (id_leb (DeploymentLog.id b) (DeploymentLog.id a))).
Proof.
  intros a b. destruct (DeploymentLog.id a), (DeploymentLog.id b); simpl;
    rewrite ?Is_true_true, ?Z.leb_le; auto; lia.
Qed.

Lemma id_desc_trans :
  Transitive (fun a b : DeploymentLog.t =>
                Is_true (id_leb (DeploymentLog.id b) (DeploymentLog.id a))).
Proof.
  intros a b c.
  destruct (DeploymentLog.id a), (DeploymentLog.id b), (DeploymentLog.id c);
    simpl; rewrite ?Is_true_true, ?Z.leb_le; auto; try lia; try done.
Qed.

Lemma id_leb_refl (a : option Z) : Is_true (id_leb a a).
Proof. destruct a; simpl; [|done]. apply Is_true_true, Z.leb_refl. Qed.

(** The first row in descending order of [id] is a row of the table
    with the greatest [id]. *)
Lemma order_by_id_desc_head (rows : list DeploymentLog.t) :
  rows <> [] ->
  exists d rest,
    order_by_id_desc rows = d :: rest
    /\ d ∈ rows
    /\ forall d', d' ∈ rows ->
         Is_true (id_leb (DeploymentLog.id d') (DeploymentLog.id d)).
Proof.
  intros Hne. unfold order_by_id_desc.
  set (R := fun a b : DeploymentLog.t =>
              Is_true (id_leb (DeploymentLog.id b) (DeploymentLog.id a))).
  pose proof (merge_sort_Permutation R rows) as Hperm.
  pose proof (@StronglySorted_merge_sort _ R _ id_desc_trans id_desc_total
                rows) as Hsort.
  destruct (merge_sort R rows) as [|d rest] eqn:E.
  - apply Permutation_nil_l in Hperm. congruence.
  - exists d, rest. split; [done|]. split.
    + rewrite <- Hperm. left.
    + intros d' Hd'. rewrite <- Hperm in Hd'.
      apply elem_of_cons in Hd' as [-> | Hin]; [apply id_leb_refl|].
      apply StronglySorted_inv in Hsort as [_ Hall].
      rewrite Forall_forall in Hall. by apply Hall.
Qed.

End Lookups.

Section LookupTheorems.
Import Models Queries.

(** C7, counterexample. The operation [mock_node_config] occurs twice in
    the plan of deployment 1; a row for it exists, and [get_operation_log]
    neither returns it nor fails with the not-found exception: [one()]
    raises [MultipleResultsFound], which the function lets through. *)
Lemma get_operation_log_repeated_operation :
  Scenario.operation_rows !! 0%nat
    = Some (OperationLog.mk (Some 1%Z) "mock_node_config"
              OperationStateEnum.SUCCESS (Some 0) (Some 1) (Some []))
  /\ selects 1 "mock_node_config"
       (OperationLog.mk (Some 1%Z) "mock_node_config"
          OperationStateEnum.SUCCESS (Some 0) (Some 1) (Some []))
  /\ get_operation_log (mkSession [] Scenario.operation_rows [] true)
       1 "mock_node_config"
     = Err MultipleResultsFound.
Proof. repeat split. Qed.

(** C7, amended. On a table whose deployment ids are unique (the primary
    key): [get_deployment] fails with the exception raised from
    [NoResultFound] when no row has the id and returns the row that has
    it; [get_last_deployment] fails in the same way on an empty table and
    otherwise returns a row with the greatest id; [get_operation_log]
    fails in the same way when no row matches, returns the row when
    exactly one matches, and raises [MultipleResultsFound] when rows at
    two positions match. *)
Theorem lookups_found_or_not_found (s : Session) :
  NoDup (DeploymentLog.id <$> deployment_log s) ->
  (forall i,
      (forall d, d ∈ deployment_log s -> DeploymentLog.id d <> Some i) ->
      get_deployment s i
      = Err (Exception (DeploymentDoesNotExist i) NoResultFound))
  /\ (forall i d,
         d ∈ deployment_log s -> DeploymentLog.id d = Some i ->
         get_deployment s i = Ok d)
  /\ (deployment_log s = [] ->
      get_last_deployment s = Err (Exception NoDeployments NoResultFound))
  /\ (deployment_log s <> [] ->
      exists d,
        get_last_deployment s = Ok d
        /\ d ∈ deployment_log s
        /\ forall d', d' ∈ deployment_log s ->
             Is_true (id_leb (DeploymentLog.id d') (DeploymentLog.id d)))
  /\ (forall i n,
         (forall o, o ∈ operation_log s -> ~ selects i n o) ->
         get_operation_log s i n
         = Err (Exception (OperationDoesNotExist n i) NoResultFound))
  /\ (forall i n j o,
         operation_log s !! j = Some o -> selects i n o ->
         (forall k o', operation_log s !! k = Some o' -> selects i n o' ->
                       k = j) ->
         get_operation_log s i n = Ok o)
  /\ (forall i n j k o1 o2,
         j <> k ->
         operation_log s !! j = Some o1 -> selects i n o1 ->
         operation_log s !! k = Some o2 -> selects i n o2 ->
         get_operation_log s i n = Err MultipleResultsFound).
Proof.
  intros Hpk. repeat apply conj.
  - intros i Hno. unfold get_deployment.
    by rewrite (filter_none _ _ Hno).
  - intros i d Hin Hid. unfold get_deployment.
    apply list_elem_of_lookup_1 in Hin as [j Hj].
    rewrite (filter_unique_position _ _ j d Hj Hid); [done|].
    intros k d' Hk Hid'.
    eapply (NoDup_lookup _ k j (Some i) Hpk);
      rewrite list_lookup_fmap; [rewrite Hk | rewrite Hj]; simpl; congruence.
  - intros E. unfold get_last_deployment. by rewrite E.
  - intros Hne. unfold get_last_deployment.
    destruct (order_by_id_desc_head _ Hne) as (d & rest & -> & Hin & Hmax).
    exists d. simpl. auto.
  - intros i n Hno. unfold get_operation_log.
    by rewrite (filter_none _ _ Hno).
  - intros i n j o Hj Hsel Huniq. unfold get_operation_log.
    by rewrite (filter_unique_position _ _ j o Hj Hsel Huniq).
  - intros i n j k o1 o2 Hne Hj H1 Hk H2. unfold get_operation_log.
    destruct (filter_two_positions (selects i n) _ j k o1 o2 Hne Hj Hk H1 H2)
      as (a & b & rest & E).
    by rewrite E.
Qed.

End LookupTheorems.

Section LookupWitness.
Import Models Queries.

(** The lookups on the scenario's tables: deployments 1 and 2, and the
    operation logs of deployment 1. *)
Lemma lookups_found_or_not_found_witness :
  NoDup (DeploymentLog.id <$> deployment_log Scenario.session)
  /\ get_deployment Scenario.session 7
     = Err (Exception (DeploymentDoesNotExist 7) NoResultFound)
  /\ (exists d, Scenario.deployment_rows !! 1%nat = Some d
                /\ get_deployment Scenario.session 2 = Ok d)
  /\ (exists d, get_last_deployment Scenario.session = Ok d
                /\ DeploymentLog.id d = Some 2%Z)
  /\ get_operation_log Scenario.session 1 "mock_init"
     = Err (Exception (OperationDoesNotExist "mock_init" 1) NoResultFound)
  /\ (exists o, Scenario.operation_rows !! 1%nat = Some o
                /\ get_operation_log Scenario.session 1 "mock_node_start" = Ok o)
  /\ get_operation_log Scenario.session 1 "mock_node_config"
     = Err MultipleResultsFound.
Proof.
  assert (Hpk : NoDup (DeploymentLog.id <$> deployment_log Scenario.session))
    by (apply (bool_decide_unpack _); vm_compute; exact I).
  destruct (lookups_found_or_not_found Scenario.session Hpk)
    as (Hnone & Hsome & _ & Hlast & Hopnone & Hopone & Hopmany).
  split; [exact Hpk|]. split.
  { apply Hnone. apply Forall_forall.
    apply (bool_decide_unpack _). vm_compute. exact I. }
  split.
  { eexists. split; [reflexivity|]. apply Hsome; [|reflexivity].
    apply (list_elem_of_lookup_2 _ 1%nat). reflexivity. }
  split.
  { destruct Hlast as (d & Hd & Hin & Hmax); [discriminate|].
    exists d. split; [exact Hd|].
    vm_compute in Hd. injection Hd as <-. reflexivity. }
  split.
  { apply Hopnone. apply Forall_forall.
    apply (bool_decide_unpack _). vm_compute. exact I. }
  split.
  { eexists. split; [reflexivity|].
    apply (Hopone _ _ 1%nat); [reflexivity | split; reflexivity |].
    intros k o' Hk [_ Hn].
    destruct k as [|[|[|[|k]]]]; simpl in Hk; try done;
      injection Hk as <-; simpl in Hn; discriminate. }
  eapply (Hopmany _ _ 0%nat 2%nat);
    [discriminate | reflexivity | split; reflexivity
     | reflexivity | split; reflexivity].
Defined.

End LookupWitness.

(** ** Resuming a failed deployment *)

Section Resume.
Import Models Plan.

Lemma index_of_first_failure_spec (ops : list OperationLog.t) :
  match index_of_first_failure ops with
  | Some k =>
      exists ol,
        ops !! k = Some ol
        /\ OperationLog.state ol = OperationStateEnum.FAILURE
        /\ forall j ol', j < k -> ops !! j = Some ol' ->
             OperationLog.state ol' <> OperationStateEnum.FAILURE
  | None =>
      forall ol, ol ∈ ops ->
        OperationLog.state ol <> OperationStateEnum.FAILURE
  end.
Proof.
  induction ops as [|o ops IH]; simpl.
  - intros ol Hin. by apply elem_of_nil in Hin.
  - destruct (decide (OperationLog.state o = OperationStateEnum.FAILURE))
      as [Hf|Hf].
    + exists o. repeat split; [done|]. intros j ol' Hj. lia.
    + destruct (index_of_first_failure ops) as [k|]; simpl.
      * destruct IH as (ol & Hk & Hol & Hbefore).
        exists ol. repeat split; [done..|].
        intros [|j] ol' Hj Hl; simpl in Hl.
        -- by injection Hl as <-.
        -- apply (Hbefore j); [lia|done].
      * intros ol Hin. apply elem_of_cons in Hin as [-> | Hin]; auto.
Qed.

Lemma planned_names (names : list string) :
  map OperationLog.operation (map OperationLog.planned names) = names.
Proof. induction names as [|n names IH]; simpl; [done|]. by rewrite IH. Qed.

(** C2. From a failed deployment log with an operation in state FAILURE,
    [from_failed_deployment] gives a plan of type RESUME; with [k] the
    position of the first failed operation, the plan has the length of
    the failed plan minus [k], its first operation carries the name of
    the failed operation, and its operation names are those of the failed
    plan from position [k] on, in the same order. *)
Theorem from_failed_deployment_resumes_at_failure
    (collections : Collections) (failed : DeploymentLog.t) :
  (exists ol, ol ∈ DeploymentLog.operations failed
              /\ OperationLog.state ol = OperationStateEnum.FAILURE) ->
  exists k failed_operation plan,
    index_of_first_failure (DeploymentLog.operations failed) = Some k
    /\ DeploymentLog.operations failed !! k = Some failed_operation
    /\ OperationLog.state failed_operation = OperationStateEnum.FAILURE
    /\ (forall j ol, j < k -> DeploymentLog.operations failed !! j = Some ol ->
          OperationLog.state ol <> OperationStateEnum.FAILURE)
    /\ from_failed_deployment collections failed = Ok plan
    /\ DeploymentLog.deployment_type plan = DeploymentTypeEnum.RESUME
    /\ DeploymentLog.state plan = DeploymentStateEnum.PLANNED
    /\ length (DeploymentLog.operations plan)
       = length (DeploymentLog.operations failed) - k
    /\ (exists first,
           DeploymentLog.operations plan !! 0 = Some first
           /\ OperationLog.operation first
              = OperationLog.operation failed_operation)
    /\ DeploymentLog.operation_names plan
       = drop k (DeploymentLog.operation_names failed).
Proof.
  intros (ol0 & Hin & Hfail).
  pose proof (index_of_first_failure_spec (DeploymentLog.operations failed))
    as Hspec.
  unfold from_failed_deployment.
  destruct (index_of_first_failure (DeploymentLog.operations failed))
    as [k|] eqn:Hidx.
  2: { exfalso. by apply (Hspec ol0). }
  destruct Hspec as (fo & Hk & Hfo & Hbefore).
  exists k, fo. eexists. repeat apply conj; try done; simpl.
  - rewrite length_map, length_drop. unfold DeploymentLog.operation_names.
    by rewrite length_map.
  - exists (OperationLog.planned (OperationLog.operation fo)).
    split; [|done].
    change (map OperationLog.planned ?l) with (OperationLog.planned <$> l).
    rewrite list_lookup_fmap, lookup_drop, Nat.add_0_r.
    unfold DeploymentLog.operation_names.
    change (map OperationLog.operation ?l) with (OperationLog.operation <$> l).
    by rewrite list_lookup_fmap, Hk.
  - unfold DeploymentLog.operation_names at 1. simpl. apply planned_names.
Qed.

(** Resuming the scenario's deployment, which failed at [mock_config],
    its second operation of four. *)
Lemma from_failed_deployment_resumes_at_failure_witness :
  exists k failed_operation plan,
    index_of_first_failure
      (DeploymentLog.operations
         (DeploymentLog.set_operations Scenario.failed_operations
            (Scenario.planned DeploymentTypeEnum.DAG []))) = Some k
    /\ k = 1
    /\ OperationLog.operation failed_operation = "mock_config"
    /\ from_failed_deployment Scenario.minimal_collections
         (DeploymentLog.set_operations Scenario.failed_operations
            (Scenario.planned DeploymentTypeEnum.DAG [])) = Ok plan
    /\ DeploymentLog.deployment_type plan = DeploymentTypeEnum.RESUME
    /\ DeploymentLog.operation_names plan
       = ["mock_config"; "mock_start"; "mock_init"].
Proof.
  destruct (from_failed_deployment_resumes_at_failure
              Scenario.minimal_collections
              (DeploymentLog.set_operations Scenario.failed_operations
                 (Scenario.planned DeploymentTypeEnum.DAG [])))
    as (k & fo & plan & Hk & Hfo & _ & _ & Hplan & Hty & _ & _ & _ & Hnames).
  { eexists.
    split; [apply (list_elem_of_lookup_2 _ 1); reflexivity | reflexivity]. }
  exists k, fo, plan.
  assert (k = 1) as -> by (vm_compute in Hk; congruence).
  repeat apply conj; try done.
  simpl in Hfo. by injection Hfo as <-.
Defined.

End Resume.

(** ** The command [plan dag] *)

Section DagCommand.
Import Models Queries PlanDag.
Context {DagT : Type}.
Variable Dag : Collections -> result Exn DagT.
Variable operations : DagT -> gset string.
Variable from_dag :
  DagT -> option (list string) -> option (list string) ->
  option string -> option FilterTypeEnum.t -> bool ->
  result Exn DeploymentLog.t.

Lemma invoke_dag (a : Args) (db : Session) :
  exists filter_type,
    invoke Dag operations from_dag a db
    = dag Dag operations from_dag a filter_type db.
Proof.
  unfold invoke.
  destruct (filter_type_of_flags_cases (filter_flags a)) as [-> | ->]; eauto.
Qed.

Lemma set_difference_empty_iff (a : Args) (d : DagT) :
  (list_to_set (listed (sources a)) ∪ list_to_set (listed (targets a)))
    ∖ operations d = (∅ : gset string)
  <-> forall n, n ∈ listed_nodes a -> n ∈ operations d.
Proof.
  unfold listed_nodes. split.
  - intros Hempty n Hn. apply elem_of_app in Hn.
    destruct (decide (n ∈ operations d)) as [|Hno]; [done|]. exfalso.
    apply (not_elem_of_empty (C := gset string) n). rewrite <- Hempty.
    apply elem_of_difference. split; [|done].
    apply elem_of_union. rewrite !elem_of_list_to_set. done.
  - intros Hall. apply elem_of_equiv_empty_L. intros n Hn.
    apply elem_of_difference in Hn as [Hn Hno].
    apply elem_of_union in Hn. rewrite !elem_of_list_to_set in Hn.
    apply Hno, Hall, elem_of_app. done.
Qed.

(** When the guards pass and the plan is built, the command does what
    the session block does, after announcing the plan. *)
Lemma dag_reaches_persist (a : Args) (ft : option FilterTypeEnum.t)
    (db : Session) (d : DagT) (new : DeploymentLog.t) :
  vars_exists a = true ->
  Dag (collections a) = Ok d ->
  (forall n, n ∈ listed_nodes a -> n ∈ operations d) ->
  from_dag d (split_arg (sources a)) (split_arg (targets a)) (filter a) ft
    (restart a) = Ok new ->
  exists e1,
    dag Dag operations from_dag a ft db
    = (let '(r, db', ev) := persist new db in
       (r, db', Echoed e1 :: PlanBuilt new :: ev)).
Proof.
  intros Hvars Hdag Hknown Hnew. unfold dag.
  rewrite Hvars, Hdag. simpl.
  rewrite bool_decide_eq_true_2 by (by apply set_difference_empty_iff).
  simpl. rewrite Hnew. eauto.
Qed.

(** C9. When a listed source or target is not an operation of the DAG,
    the command fails with [BadParameter] and has no effect: nothing is
    echoed, no plan is built, nothing is merged or committed and the
    database is unchanged; when the variables directory exists the
    message names exactly the listed names that are not operations. *)
Theorem unknown_node_aborts_plan (a : Args) (db : Session) (d : DagT)
    (n : string) :
  Dag (collections a) = Ok d ->
  n ∈ listed (sources a) \/ n ∈ listed (targets a) ->
  n ∉ operations d ->
  exists m,
    invoke Dag operations from_dag a db = (Err (BadParameter m), db, [])
    /\ (vars_exists a = true ->
        exists set_difference,
          m = NotValidNodes set_difference
          /\ n ∈ set_difference
          /\ forall x, x ∈ set_difference <->
               (x ∈ listed (sources a) \/ x ∈ listed (targets a))
               /\ x ∉ operations d).
Proof.
  intros Hdag Hn Hunknown.
  destruct (invoke_dag a db) as [ft ->]. unfold dag.
  destruct (vars_exists a); simpl.
  2: { eexists. split; [done|]. discriminate. }
  rewrite Hdag.
  set (diff := (list_to_set (listed (sources a))
                  ∪ list_to_set (listed (targets a))) ∖ operations d).
  assert (Hmem : forall x, x ∈ diff <->
            (x ∈ listed (sources a) \/ x ∈ listed (targets a))
            /\ x ∉ operations d).
  { intros x. unfold diff.
    rewrite elem_of_difference, elem_of_union, !elem_of_list_to_set. done. }
  assert (Hin : n ∈ diff) by (apply Hmem; auto).
  rewrite bool_decide_eq_false_2
    by (intros E; rewrite E in Hin; by apply not_elem_of_empty in Hin).
  simpl.
  exists (NotValidNodes diff). split; [done|]. intros _.
  exists diff. auto.
Qed.

End DagCommand.

Section DagCommandWitness.
Import Models Queries PlanDag.

(** [plan dag --sources mock_install,mock_instal] on the scenario: the
    second name is not an operation. *)
Lemma unknown_node_aborts_plan_witness :
  exists m,
    invoke Scenario.Dag Scenario.operations Scenario.from_dag
      (Scenario.args (Some "mock_install,mock_instal") true) Scenario.session
    = (Err (BadParameter m), Scenario.session, [])
    /\ exists set_difference,
         m = NotValidNodes set_difference
         /\ "mock_instal" ∈ set_difference
         /\ "mock_install" ∉ set_difference.
Proof.
  destruct (unknown_node_aborts_plan Scenario.Dag Scenario.operations
              Scenario.from_dag
              (Scenario.args (Some "mock_install,mock_instal") true)
              Scenario.session Scenario.minimal_collections "mock_instal")
    as (m & Hrun & Hmsg).
  - reflexivity.
  - left. apply (list_elem_of_lookup_2 _ 1). reflexivity.
  - apply (bool_decide_unpack _). vm_compute. exact I.
  - exists m. split; [exact Hrun|].
    destruct (Hmsg eq_refl) as (diff & -> & Hin & Hiff).
    exists diff. repeat split; [exact Hin|].
    intros Hbad. apply Hiff in Hbad as [_ Hno]. apply Hno.
    apply (bool_decide_unpack _). vm_compute. exact I.
Defined.

End DagCommandWitness.

(** ** Planning again while a deployment is planned *)

Section PlannedInvariant.
Import Models Queries PlanDag.

Lemma NoDup_fmap_same {A B : Type} (f : A -> B) (l : list A) (x y : A) :
  NoDup (f <$> l) -> x ∈ l -> y ∈ l -> f x = f y -> x = y.
Proof.
  intros Hnd Hx Hy Hf.
  apply list_elem_of_lookup_1 in Hx as [j Hj].
  apply list_elem_of_lookup_1 in Hy as [k Hk].
  assert (j = k) as ->.
  { apply (NoDup_lookup _ j k (f x) Hnd); rewrite list_lookup_fmap.
    - by rewrite Hj.
    - rewrite Hk. simpl. by rewrite Hf. }
  congruence.
Qed.

Lemma foldr_max_ge (i : Z) (ids : list Z) (x : Z) :
  x ∈ i :: ids -> (x <= foldr Z.max i ids)%Z.
Proof.
  induction ids as [|a ids IH]; intros Hx.
  - apply list_elem_of_singleton in Hx as ->. simpl. lia.
  - simpl. apply elem_of_cons in Hx as [-> | Hx].
    + specialize (IH ltac:(left)). lia.
    + apply elem_of_cons in Hx as [-> | Hx]; [lia|].
      specialize (IH ltac:(by right)). lia.
Qed.

(** The next key is above every key of the table. *)
Lemma next_id_above (table : list DeploymentLog.t) (r : DeploymentLog.t)
    (i : Z) :
  r ∈ table -> DeploymentLog.id r = Some i -> (i < next_id table)%Z.
Proof.
  intros Hin Hid. unfold next_id.
  assert (Hi : i ∈ omap DeploymentLog.id table)
    by (apply list_elem_of_omap; eauto).
  destruct (omap DeploymentLog.id table) as [|i0 ids].
  - by apply elem_of_nil in Hi.
  - pose proof (foldr_max_ge i0 ids i Hi). lia.
Qed.

(** Storing under a key that no row has adds a row at the end. *)
Lemma merge_row_fresh (i : Z) (row : DeploymentLog.t)
    (table : list DeploymentLog.t) :
  (forall r, r ∈ table -> DeploymentLog.id r <> Some i) ->
  merge_row i row table = (table ++ [row])%list.
Proof.
  intros Hfresh. unfold merge_row.
  destruct (existsb _ table) eqn:Hex; [|done].
  apply existsb_exists in Hex as (r & Hr & Hid).
  apply list_elem_of_In in Hr. apply bool_decide_eq_true_1 in Hid.
  by destruct (Hfresh r Hr).
Qed.

(** Storing under the key of the row at position [j] overwrites that
    row and no other, the keys being unique. *)
Lemma merge_row_insert (i : Z) (row p : DeploymentLog.t)
    (table : list DeploymentLog.t) (j : nat) :
  NoDup (DeploymentLog.id <$> table) ->
  table !! j = Some p -> DeploymentLog.id p = Some i ->
  merge_row i row table = <[j := row]> table.
Proof.
  intros Hpk Hj Hid. unfold merge_row.
  assert (existsb (fun r => bool_decide (DeploymentLog.id r = Some i)) table
          = true) as ->.
  { apply existsb_exists. exists p. split.
    - apply list_elem_of_In. by eapply list_elem_of_lookup_2.
    - by apply bool_decide_eq_true_2. }
  change (map ?f ?l) with (f <$> l).
  apply list_eq. intros k. rewrite list_lookup_fmap.
  destruct (decide (k = j)) as [->|Hne].
  - rewrite list_lookup_insert_eq by (by eapply lookup_lt_Some).
    rewrite Hj. simpl. by rewrite decide_True.
  - rewrite list_lookup_insert_ne by done.
    destruct (table !! k) as [r|] eqn:Hk; [|done]. simpl.
    rewrite decide_False; [done|]. intros Hr. apply Hne.
    apply (NoDup_lookup _ k j (Some i) Hpk); rewrite list_lookup_fmap.
    + by rewrite Hk; simpl; rewrite Hr.
    + by rewrite Hj; simpl; rewrite Hid.
Qed.

(** On a table that keeps the invariant, a PLANNED row is the only
    one. *)
Lemma planned_unique (table : list DeploymentLog.t) (j : nat)
    (p : DeploymentLog.t) :
  at_most_one_planned table ->
  table !! j = Some p -> is_planned p ->
  base.filter is_planned table = [p]
  /\ base.filter is_planned (take j table) = []
  /\ base.filter is_planned (drop (S j) table) = [].
Proof.
  unfold at_most_one_planned.
  change (fun d => DeploymentLog.state d = DeploymentStateEnum.PLANNED)
    with is_planned.
  intros Hinv Hj Hp.
  rewrite <- (take_drop_middle table j p Hj) in Hinv |- * at 1.
  rewrite filter_app, filter_cons_True in Hinv |- * by done.
  rewrite length_app in Hinv. simpl in Hinv.
  destruct (base.filter is_planned (take j table)); simpl in Hinv; [|lia].
  destruct (base.filter is_planned (drop (S j) table)); simpl in Hinv; [|lia].
  done.
Qed.

(** What the helper of the command finds on a table that keeps the
    invariant. *)
Lemma planned_lookup_some (db : Session) (j : nat) (p : DeploymentLog.t) :
  at_most_one_planned (deployment_log db) ->
  deployment_log db !! j = Some p -> is_planned p ->
  Utils.get_planned_deployment_log db = Ok (Some p).
Proof.
  intros Hinv Hj Hp. unfold Utils.get_planned_deployment_log.
  by destruct (planned_unique _ j p Hinv Hj Hp) as (-> & _).
Qed.

Lemma planned_lookup_none (db : Session) :
  (forall r, r ∈ deployment_log db -> ~ is_planned r) ->
  Utils.get_planned_deployment_log db = Ok None.
Proof.
  intros Hnone. unfold Utils.get_planned_deployment_log.
  by rewrite (filter_none _ _ Hnone).
Qed.

(** A table that keeps the invariant holds no PLANNED row or holds one,
    at one position. *)
Lemma planned_cases (table : list DeploymentLog.t) :
  at_most_one_planned table ->
  (forall r, r ∈ table -> ~ is_planned r)
  \/ exists j p, table !! j = Some p /\ is_planned p.
Proof.
  intros _.
  destruct (decide (Forall (fun r => ~ is_planned r) table)) as [Hall|Hnot].
  - left. by apply Forall_forall.
  - right. apply not_Forall_Exists in Hnot; [|apply _].
    apply Exists_exists in Hnot as (p & Hin & Hp).
    apply list_elem_of_lookup_1 in Hin as [j Hj].
    exists j, p. split; [done|].
    by destruct (decide (is_planned p)).
Qed.

(** The table after a PLANNED deployment is stored in the place of the
    PLANNED row: the keys are those of before, and the stored row is
    the only PLANNED row and the only row with its key. *)
Lemma stored_over_planned (table : list DeploymentLog.t) (j : nat)
    (p new : DeploymentLog.t) (i : Z) :
  NoDup (DeploymentLog.id <$> table) ->
  at_most_one_planned table ->
  table !! j = Some p -> is_planned p -> DeploymentLog.id p = Some i ->
  is_planned new ->
  DeploymentLog.id <$> <[j := persisted i new]> table
  = DeploymentLog.id <$> table
  /\ base.filter is_planned (<[j := persisted i new]> table)
     = [persisted i new]
  /\ base.filter (fun d => DeploymentLog.id d = Some i)
       (<[j := persisted i new]> table)
     = [persisted i new].
Proof.
  intros Hpk Hinv Hj Hp Hid Hnew.
  pose proof (lookup_lt_Some _ _ _ Hj) as Hlt.
  assert (Hids : DeploymentLog.id <$> <[j := persisted i new]> table
                 = DeploymentLog.id <$> table).
  { rewrite list_fmap_insert. apply list_insert_id.
    rewrite list_lookup_fmap, Hj. simpl. by rewrite Hid. }
  split; [exact Hids|]. split.
  - destruct (planned_unique _ j p Hinv Hj Hp) as (_ & Ht & Hd).
    rewrite insert_take_drop by done.
    rewrite filter_app, filter_cons_True by done.
    by rewrite Ht, Hd.
  - apply (filter_unique_position _ _ j).
    + by rewrite list_lookup_insert_eq.
    + reflexivity.
    + intros k r Hk Hr.
      apply (NoDup_lookup (DeploymentLog.id <$> <[j := persisted i new]> table)
               k j (Some i)).
      * by rewrite Hids.
      * by rewrite list_lookup_fmap, Hk; simpl; rewrite Hr.
      * by rewrite list_lookup_fmap, list_lookup_insert_eq.
Qed.

(** The table after a PLANNED deployment is stored as a new row, none
    being PLANNED before. *)
Lemma stored_as_new (table : list DeploymentLog.t) (new : DeploymentLog.t)
    (i : Z) :
  NoDup (DeploymentLog.id <$> table) ->
  (forall r, r ∈ table -> ~ is_planned r) ->
  (forall r, r ∈ table -> DeploymentLog.id r <> Some i) ->
  is_planned new ->
  NoDup (DeploymentLog.id <$> (table ++ [persisted i new])%list)
  /\ base.filter is_planned (table ++ [persisted i new])%list
     = [persisted i new]
  /\ base.filter (fun d => DeploymentLog.id d = Some i)
       (table ++ [persisted i new])%list
     = [persisted i new].
Proof.
  intros Hpk Hnone Hfresh Hnew. repeat apply conj.
  - rewrite fmap_app. apply NoDup_app. repeat apply conj; [done| |].
    + intros x Hx Hx'. simpl in Hx'. apply list_elem_of_singleton in Hx'.
      subst x. apply list_elem_of_fmap in Hx as (r & Hr & Hin).
      simpl in Hr. by apply (Hfresh r Hin).
    + simpl. apply NoDup_singleton.
  - rewrite filter_app, (filter_none _ _ Hnone). simpl.
    by rewrite filter_cons_True.
  - rewrite filter_app, (filter_none _ _ Hfresh). simpl.
    by rewrite filter_cons_True.
Qed.

End PlannedInvariant.

Section PlanAgain.
Import Models Queries PlanDag.
Context {DagT : Type}.
Variable Dag : Collections -> result Exn DagT.
Variable operations : DagT -> gset string.
Variable from_dag :
  DagT -> option (list string) -> option (list string) ->
  option string -> option FilterTypeEnum.t -> bool ->
  result Exn DeploymentLog.t.

(** The session block when a deployment is PLANNED: the new plan is
    merged under the id of that deployment, and its row and operation
    logs take the place of those of that deployment. *)
Lemma persist_overwrites (new : DeploymentLog.t) (db : Session) (j : nat)
    (p : DeploymentLog.t) (i : Z) :
  NoDup (DeploymentLog.id <$> deployment_log db) ->
  at_most_one_planned (deployment_log db) ->
  deployment_log db !! j = Some p -> is_planned p ->
  DeploymentLog.id p = Some i ->
  persist new db
  = (Ok tt, merge (DeploymentLog.set_id (Some i) new) db,
     [Merged (DeploymentLog.set_id (Some i) new); Committed;
      Echoed PlanCreated])
  /\ deployment_log (merge (DeploymentLog.set_id (Some i) new) db)
     = <[j := persisted i new]> (deployment_log db)
  /\ operation_log (merge (DeploymentLog.set_id (Some i) new) db)
     = (base.filter (fun o => OperationLog.deployment_id o <> Some i)
          (operation_log db)
        ++ DeploymentLog.operations (persisted i new))%list.
Proof.
  intros Hpk Hinv Hj Hp Hid. unfold persist.
  rewrite (planned_lookup_some db j p Hinv Hj Hp), Hid.
  split; [done|]. split; [|done]. simpl.
  by apply (merge_row_insert i _ p).
Qed.

(** The session block when no deployment is PLANNED: the new plan,
    which has no id, is merged as a new row under the next key. *)
Lemma persist_adds (new : DeploymentLog.t) (db : Session) :
  (forall r, r ∈ deployment_log db -> ~ is_planned r) ->
  DeploymentLog.id new = None ->
  persist new db
  = (Ok tt, merge new db, [Merged new; Committed; Echoed PlanCreated])
  /\ deployment_log (merge new db)
     = (deployment_log db
        ++ [persisted (next_id (deployment_log db)) new])%list
  /\ forall r, r ∈ deployment_log db ->
       DeploymentLog.id r <> Some (next_id (deployment_log db)).
Proof.
  intros Hnone Hid. unfold persist.
  rewrite (planned_lookup_none db Hnone).
  assert (Hfresh : forall r, r ∈ deployment_log db ->
            DeploymentLog.id r <> Some (next_id (deployment_log db))).
  { intros r Hr Hr'. pose proof (next_id_above _ _ _ Hr Hr'). lia. }
  split; [done|]. split; [|done]. unfold merge. rewrite Hid. simpl.
  by apply merge_row_fresh.
Qed.

(** C8. The command keeps the invariant that at most one deployment is
    PLANNED. And when the guards of the command pass, the plan
    constructor returns the plan [new] for the arguments and a
    deployment [p] is PLANNED, the command succeeds and [new] takes the
    place of [p]: the deployment table is the one of before with, at
    the position of [p], the new plan under the id of [p] (no row is
    added and every other row is unchanged), and the operation logs of
    the new plan, under that id, replace those of [p]. The plan
    constructor is taken to give plans in state PLANNED that have no id
    yet, and the table to have a unique id on every row. *)
Theorem plan_dag_overwrites_planned (a : Args) (db : Session) :
  (forall dg so ta fe fty re dl,
      from_dag dg so ta fe fty re = Ok dl ->
      DeploymentLog.state dl = DeploymentStateEnum.PLANNED
      /\ DeploymentLog.id dl = None) ->
  NoDup (DeploymentLog.id <$> deployment_log db) ->
  (forall r, r ∈ deployment_log db -> is_Some (DeploymentLog.id r)) ->
  at_most_one_planned (deployment_log db) ->
  exists r db' ev,
    invoke Dag operations from_dag a db = (r, db', ev)
    /\ at_most_one_planned (deployment_log db')
    /\ forall d ft new j p i,
         vars_exists a = true ->
         Dag (collections a) = Ok d ->
         (forall n, n ∈ listed_nodes a -> n ∈ operations d) ->
         filter_type_of_flags (filter_flags a) = Ok ft ->
         from_dag d (split_arg (sources a)) (split_arg (targets a))
           (filter a) ft (restart a) = Ok new ->
         deployment_log db !! j = Some p ->
         DeploymentLog.state p = DeploymentStateEnum.PLANNED ->
         DeploymentLog.id p = Some i ->
         r = Ok tt
         /\ deployment_log db'
            = <[j := persisted i new]> (deployment_log db)
         /\ length (deployment_log db') = length (deployment_log db)
         /\ operation_log db'
            = (base.filter
                 (fun o => OperationLog.deployment_id o <> Some i)
                 (operation_log db)
               ++ DeploymentLog.operations (persisted i new))%list.
Proof.
  intros Hfrom Hpk Hids Hinv.
  unfold invoke.
  destruct (filter_type_of_flags (filter_flags a)) as [ft0|e0] eqn:Hft.
  2: { eexists _, _, _. split; [done|]. split; [done|].
       intros d ft new j p i _ _ _ Hft'. discriminate. }
  unfold dag.
  destruct (vars_exists a) eqn:Hvars; simpl.
  2: { eexists _, _, _. split; [done|]. split; [done|].
       intros d ft new j p i Hv. discriminate. }
  destruct (Dag (collections a)) as [d0|e0] eqn:Hdag.
  2: { eexists _, _, _. split; [done|]. split; [done|].
       intros d ft new j p i _ Hd. discriminate. }
  destruct (decide ((list_to_set (listed (sources a))
                       ∪ list_to_set (listed (targets a)))
                      ∖ operations d0 = (∅ : gset string))) as [He|Hne].
  2: { rewrite bool_decide_eq_false_2 by done. simpl.
       eexists _, _, _. split; [done|]. split; [done|].
       intros d ft new j p i _ [= <-] Hknown. exfalso. apply Hne.
       by apply set_difference_empty_iff. }
  rewrite bool_decide_eq_true_2 by done. simpl.
  destruct (from_dag d0 _ _ _ _ _) as [new0|e0] eqn:Hnew0.
  2: { eexists _, _, _. split; [done|]. split; [done|].
       intros d ft new j p i _ [= <-] _ [= <-] Hnew. congruence. }
  destruct (Hfrom _ _ _ _ _ _ _ Hnew0) as [Hst Hid].
  destruct (planned_cases _ Hinv) as [Hnone | (j0 & p0 & Hj0 & Hp0)].
  - destruct (persist_adds new0 db Hnone Hid) as (-> & Htable & Hfresh).
    eexists _, _, _. split; [done|]. split.
    + rewrite Htable. unfold at_most_one_planned.
      change (fun d => DeploymentLog.state d = DeploymentStateEnum.PLANNED)
        with is_planned.
      destruct (stored_as_new _ new0 _ Hpk Hnone Hfresh Hst) as (_ & -> & _).
      simpl. lia.
    + intros d ft new j p i _ _ _ _ _ Hj Hp _. exfalso.
      apply (Hnone p); [by eapply list_elem_of_lookup_2|done].
  - destruct (Hids p0 ltac:(by eapply list_elem_of_lookup_2)) as [i0 Hi0].
    destruct (persist_overwrites new0 db j0 p0 i0 Hpk Hinv Hj0 Hp0 Hi0)
      as (-> & Htable & Hops).
    destruct (stored_over_planned _ j0 p0 new0 i0 Hpk Hinv Hj0 Hp0 Hi0 Hst)
      as (_ & Hplanned & _).
    eexists _, _, _. split; [done|]. split.
    + rewrite Htable. unfold at_most_one_planned.
      change (fun d => DeploymentLog.state d = DeploymentStateEnum.PLANNED)
        with is_planned.
      rewrite Hplanned. simpl. lia.
    + intros d ft new j p i _ [= <-] _ [= <-] Hnew Hj Hp Hi.
      assert (new = new0) as -> by congruence.
      assert (p ∈ base.filter is_planned (deployment_log db)) as Hin.
      { apply list_elem_of_filter. split; [done|].
        by eapply list_elem_of_lookup_2. }
      destruct (planned_unique _ j0 p0 Hinv Hj0 Hp0) as (Hf & _).
      rewrite Hf in Hin. apply list_elem_of_singleton in Hin. subst p.
      assert (i = i0) as -> by congruence.
      assert (j = j0) as ->.
      { apply (NoDup_lookup _ j j0 (Some i0) Hpk);
          rewrite list_lookup_fmap; [rewrite Hj | rewrite Hj0]; simpl;
          congruence. }
      split; [done|]. split; [done|]. split; [|done].
      by rewrite Htable, length_insert.
Qed.

End PlanAgain.

Section PlanAgainWitness.
Import Models Queries PlanDag.

(** [plan dag --sources mock_install,mock_init] on the scenario, where
    deployment 2 is planned: the table keeps its two rows, and the
    second holds the new plan under the id 2, with its operation logs
    under that id. *)
Lemma plan_dag_overwrites_planned_witness :
  exists db' ev,
    invoke Scenario.Dag Scenario.operations Scenario.from_dag
      (Scenario.args (Some "mock_install,mock_init") true) Scenario.session
    = (Ok tt, db', ev)
    /\ at_most_one_planned (deployment_log db')
    /\ deployment_log db'
       = <[1 := persisted 2
                  (Scenario.planned DeploymentTypeEnum.DAG
                     ["mock_install"; "mock_init"])]>
           (deployment_log Scenario.session)
    /\ length (deployment_log db') = 2.
Proof.
  destruct (plan_dag_overwrites_planned Scenario.Dag Scenario.operations
              Scenario.from_dag
              (Scenario.args (Some "mock_install,mock_init") true)
              Scenario.session)
    as (r & db' & ev & Hrun & Hinv & Hover).
  - intros dg so ta fe fty re dl. unfold Scenario.from_dag.
    destruct (default [] so); [discriminate|].
    intros [= <-]. split; reflexivity.
  - apply (bool_decide_unpack _). vm_compute. exact I.
  - apply Forall_forall. repeat constructor; eexists; reflexivity.
  - unfold at_most_one_planned. vm_compute. lia.
  - destruct (Hover Scenario.minimal_collections None
                (Scenario.planned DeploymentTypeEnum.DAG
                   ["mock_install"; "mock_init"])
                1
                (DeploymentLog.set_id (Some 2%Z)
                   (Scenario.planned DeploymentTypeEnum.OPERATIONS
                      ["mock_config"; "mock_start"]))
                2%Z)
      as (-> & Htable & Hlen & _).
    + reflexivity.
    + reflexivity.
    + apply Forall_forall. apply (bool_decide_unpack _). vm_compute. exact I.
    + reflexivity.
    + reflexivity.
    + reflexivity.
    + reflexivity.
    + reflexivity.
    + exists db', ev. repeat split; assumption.
Defined.

End PlanAgainWitness.

(** ** The deployment iterator *)

Section Iterator.
Import Models Runner.
Context {E : Type} (r : DeploymentRunner E).

Local Abbreviation ops it := (DeploymentLog.operations (deployment_log it)).
#[local] Arguments emission : simpl never.

Lemma next_ready (it : DeploymentIterator E) :
  ready it ->
  next r it
  = match ops it !! position it with
    | None => StopIteration (finalize DeploymentStateEnum.SUCCESS it)
    | Some ol => step r it ol
    end.
Proof.
  intros [Hfin Hlast]. unfold next. rewrite Hfin.
  by destruct (decide (last_state it = Some OperationStateEnum.FAILURE)).
Qed.

Lemma next_after_failure (it : DeploymentIterator E) :
  finished it = false ->
  last_state it = Some OperationStateEnum.FAILURE ->
  next r it = StopIteration (finalize DeploymentStateEnum.FAILURE it).
Proof.
  intros Hfin Hlast. unfold next. rewrite Hfin.
  by destruct (decide (last_state it = Some OperationStateEnum.FAILURE)).
Qed.

(** One step on an operation of the catalog: the element it yields and
    the iterator it leaves. *)
Lemma step_yield (it : DeploymentIterator E) (ol : OperationLog.t)
    (op : Operation.t) :
  collections r !! OperationLog.operation ol = Some op ->
  exists st out cv it',
    step r it ol
    = Yield (OperationLog.mk (OperationLog.deployment_id ol)
               (OperationLog.operation ol) st (Some (now it))
               (Some (S (now it))) (Some out), cv) it'
    /\ (if Operation.noop op then st = OperationStateEnum.SUCCESS
        else st = to_operation_state (execute r (executor it) op).1.1)
    /\ emission r (DeploymentLog.id (deployment_log it)) op st
         (last_configured it) (emitted it)
       = (cv, last_configured it', emitted it')
    /\ position it' = S (position it)
    /\ last_state it' = Some st
    /\ finished it' = false
    /\ ops it'
       = <[position it :=
             OperationLog.mk (OperationLog.deployment_id ol)
               (OperationLog.operation ol) st (Some (now it))
               (Some (S (now it))) (Some out)]> (ops it)
    /\ DeploymentLog.component_version (deployment_log it')
       = (DeploymentLog.component_version (deployment_log it)
            ++ match cv with Some c => [c] | None => [] end)%list
    /\ DeploymentLog.id (deployment_log it')
       = DeploymentLog.id (deployment_log it).
Proof.
  intros Hop. unfold step. rewrite Hop.
  destruct (Nat.eqb (position it) 0); simpl;
    destruct (Operation.noop op);
    try destruct (execute r (executor it) op) as [[s o] e1]; simpl;
    match goal with
    | |- context [emission ?a ?b ?c ?d ?e ?f] =>
        destruct (emission a b c d e f) as [[cv lc'] em'] eqn:Hem
    end;
    eexists _, _, _, _; (split; [reflexivity|]); simpl;
    rewrite ?list_insert_insert_eq; repeat split; done.
Qed.

End Iterator.

Section StopOnFailure.
Import Models Runner.
Context {E : Type} (r : DeploymentRunner E).

Local Abbreviation ops it := (DeploymentLog.operations (deployment_log it)).
#[local] Arguments emission : simpl never.

(** Writing back the log of the operation at a position does not change
    which catalog entry any position names. *)
Lemma operation_at_insert (dl dl' : DeploymentLog.t) (i : nat)
    (ol ol' : OperationLog.t) (k : nat) :
  DeploymentLog.operations dl !! i = Some ol ->
  DeploymentLog.operations dl' = <[i := ol']> (DeploymentLog.operations dl) ->
  OperationLog.operation ol' = OperationLog.operation ol ->
  operation_at r dl' k = operation_at r dl k.
Proof.
  intros Hi Hops Hname. unfold operation_at. rewrite Hops.
  destruct (decide (k = i)) as [->|Hne].
  - rewrite list_lookup_insert_eq by (by eapply lookup_lt_Some).
    by rewrite Hi, Hname.
  - by rewrite list_lookup_insert_ne.
Qed.

(** The executor a step leaves: the one it had for a noop, the one the
    call returned otherwise. *)
Lemma step_executor (it it' : DeploymentIterator E) (ol : OperationLog.t)
    (op : Operation.t) (y : OperationLog.t * option ComponentVersionLog.t) :
  collections r !! OperationLog.operation ol = Some op ->
  step r it ol = Yield y it' ->
  executor it'
  = if Operation.noop op then executor it
    else (execute r (executor it) op).2.
Proof.
  intros Hop. unfold step. rewrite Hop.
  destruct (Operation.noop op);
    try destruct (execute r (executor it) op) as [[s o] e1];
    match goal with
    | |- context [emission ?a ?b ?c ?d ?e ?f] =>
        destruct (emission a b c d e f) as [[cv lc'] em']
    end;
    by intros [= <- <-].
Qed.

Lemma executions_lookup_lt (e : E) (ols : list OperationLog.t) (k : nat)
    (x : option ExecutorState * E) :
  executions r e ols !! k = Some x -> k < length ols.
Proof.
  revert e k. induction ols as [|ol ols IH]; intros e k Hk; [done|].
  simpl in Hk.
  destruct (collections r !! OperationLog.operation ol) as [op|]; [|done].
  destruct k as [|k]; simpl; [lia|].
  destruct (Operation.noop op).
  - apply IH in Hk. lia.
  - destruct (execute r e op) as [[s o] e1]. apply IH in Hk. lia.
Qed.

(** When the executor's first FAILURE along the remaining operations is
    its answer for the one [k] places ahead, the loop gets [k + 1]
    elements, the last one in state FAILURE and those before it in
    state SUCCESS, and then stops: the deployment is in FAILURE, the
    executor is as that call left it, and the log is unchanged outside
    the [k + 1] entries written. *)
Lemma drain_until_failure (k : nat) :
  forall (fuel : nat) (it : DeploymentIterator E) (ek : E),
    ready it ->
    S k < fuel ->
    executions r (executor it) (drop (position it) (ops it)) !! k
    = Some (Some ExecFailure, ek) ->
    (forall j x, j < k ->
       executions r (executor it) (drop (position it) (ops it)) !! j
       = Some x ->
       x.1 <> Some ExecFailure) ->
    exists ys fin,
      drain r fuel it = (ys, fin, Exhausted)
      /\ length ys = S k
      /\ executor fin = ek
      /\ DeploymentLog.state (deployment_log fin)
         = DeploymentStateEnum.FAILURE
      /\ (exists ol cv,
             ys !! k = Some (ol, cv)
             /\ OperationLog.state ol = OperationStateEnum.FAILURE
             /\ ops fin !! (position it + k) = Some ol)
      /\ (forall j x, j < k -> ops fin !! (position it + j) = Some x ->
            OperationLog.state x = OperationStateEnum.SUCCESS)
      /\ (forall j, position it + k < j -> ops fin !! j = ops it !! j)
      /\ (forall j, j < position it -> ops fin !! j = ops it !! j)
      /\ length (ops fin) = length (ops it).
Proof.
  induction k as [|k IH]; intros fuel it ek Hready Hfuel Hk Hfirst;
    (destruct fuel as [|fuel]; [lia|]);
    simpl; rewrite (next_ready r it Hready);
    (destruct (ops it !! position it) as [ol0|] eqn:Hl;
      [|by rewrite drop_ge in Hk by (by apply lookup_ge_None)]);
    pose proof (lookup_lt_Some _ _ _ Hl) as Hlt;
    rewrite (drop_S _ _ _ Hl) in Hk, Hfirst; simpl in Hk, Hfirst;
    (destruct (collections r !! OperationLog.operation ol0) as [op|] eqn:Hop;
      [|done]);
    destruct (step_yield r it ol0 op Hop)
      as (st & out & cv0 & it' & Hstep & Hst & Hem & Hpos & Hlast & Hfin
          & Hops & Hcv & Hid);
    pose proof (step_executor it it' ol0 op _ Hop Hstep) as Hexec;
    rewrite Hstep.
  - (* the failure is the answer for the operation at hand *)
    destruct (Operation.noop op); [done|].
    destruct (execute r (executor it) op) as [[s o] e1] eqn:Hex.
    simpl in Hk, Hst, Hexec. injection Hk as -> ->. simpl in Hst. subst st.
    destruct fuel as [|fuel]; [lia|]. simpl.
    rewrite (next_after_failure r it' Hfin Hlast).
    eexists _, _. split; [reflexivity|]. simpl.
    rewrite Hops, length_insert, Nat.add_0_r.
    repeat apply conj; try done.
    + eexists _, _. split; [reflexivity|]. split; [done|].
      by rewrite list_lookup_insert_eq.
    + intros j x Hj. lia.
    + intros j Hj. by rewrite list_lookup_insert_ne by lia.
    + intros j Hj. by rewrite list_lookup_insert_ne by lia.
  - (* the operation at hand succeeds; the failure lies ahead *)
    assert (Hdrop : drop (position it') (ops it')
                    = drop (S (position it)) (ops it)).
    { rewrite Hpos, Hops. apply drop_insert_lt. lia. }
    assert (st = OperationStateEnum.SUCCESS
            /\ executions r (executor it')
                 (drop (position it') (ops it')) !! k
               = Some (Some ExecFailure, ek)
            /\ forall j x, j < k ->
                 executions r (executor it')
                   (drop (position it') (ops it')) !! j = Some x ->
                 x.1 <> Some ExecFailure) as (-> & Hk' & Hfirst').
    { rewrite Hdrop, Hexec. destruct (Operation.noop op).
      - split; [done|]. split; [done|].
        intros j x Hj Hx. apply (Hfirst (S j) x); [lia|done].
      - destruct (execute r (executor it) op) as [[s o] e1] eqn:Hex.
        simpl in Hst, Hk, Hfirst |- *. split.
        + destruct s; [done|]. by destruct (Hfirst 0 _ (Nat.lt_0_succ k) eq_refl).
        + split; [done|].
          intros j x Hj Hx. apply (Hfirst (S j) x); [lia|done]. }
    assert (Hready' : ready it') by (split; [done|]; congruence).
    destruct (IH fuel it' ek Hready' ltac:(lia) Hk' Hfirst')
      as (ys & fin & Hd & Hlen & He & Hstate & (ol & cv & Hy & Hf & Hat)
          & Hbefore & Hafter & Hkept & Hsame).
    rewrite Hd. eexists _, _. split; [reflexivity|].
    rewrite Hpos in Hat, Hbefore, Hafter, Hkept. rewrite Hops in Hafter, Hkept.
    repeat apply conj; try done.
    + simpl. by rewrite Hlen.
    + exists ol, cv. split; [done|]. split; [done|].
      by replace (position it + S k) with (S (position it) + k) by lia.
    + intros [|j] x Hj Hx.
      * rewrite Nat.add_0_r, Hkept, list_lookup_insert_eq in Hx by lia.
        by injection Hx as <-.
      * apply (Hbefore j x); [lia|].
        by replace (S (position it) + j) with (position it + S j) by lia.
    + intros j Hj. rewrite Hafter by lia.
      by rewrite list_lookup_insert_ne by lia.
    + intros j Hj. rewrite Hkept by lia.
      by rewrite list_lookup_insert_ne by lia.
    + by rewrite Hsame, Hops, length_insert.
Qed.

(** The fuel [run_all] gives the loop is enough: it ends because the
    iterator stopped or raised. *)
Lemma drain_terminates (fuel : nat) :
  forall (it : DeploymentIterator E) ys fin o,
    drain r fuel it = (ys, fin, o) ->
    ready it ->
    length (ops it) - position it < fuel ->
    o <> OutOfFuel.
Proof.
  induction fuel as [|fuel IH]; intros it ys fin o Hd Hready Hfuel; [lia|].
  simpl in Hd. rewrite (next_ready r it Hready) in Hd.
  destruct (ops it !! position it) as [ol0|] eqn:Hl.
  2: { by injection Hd as <- <- <-. }
  pose proof (lookup_lt_Some _ _ _ Hl) as Hlt.
  destruct (collections r !! OperationLog.operation ol0) as [op|] eqn:Hop.
  2: { unfold step in Hd. rewrite Hop in Hd. by injection Hd as <- <- <-. }
  destruct (step_yield r it ol0 op Hop)
    as (st & out & cv0 & it' & Hstep & Hst & Hem & Hpos & Hlast & Hfin
        & Hops & Hcv & Hid).
  rewrite Hstep in Hd.
  destruct (drain r fuel it') as [[ys' fin'] o'] eqn:Hd'.
  injection Hd as <- <- <-.
  destruct (decide (st = OperationStateEnum.FAILURE)) as [->|Hne].
  - destruct fuel as [|fuel]; [lia|]. simpl in Hd'.
    rewrite (next_after_failure r it' Hfin Hlast) in Hd'.
    by injection Hd' as <- <- <-.
  - apply (IH it' ys' fin' o' Hd').
    + split; [done|]. congruence.
    + rewrite Hops, length_insert, Hpos. lia.
Qed.

Lemma run_all_terminates (e0 : E) (clock : nat) (dl : DeploymentLog.t) :
  (run_all r e0 clock dl).2 <> OutOfFuel.
Proof.
  unfold run_all.
  destruct (drain r (S (length (DeploymentLog.operations dl)))
              (run r e0 clock dl)) as [[ys fin] o] eqn:Hd.
  simpl. apply (drain_terminates _ _ _ _ _ Hd); [by split|]. simpl. lia.
Qed.

End StopOnFailure.

Section FailureStops.
Import Models Runner.
Context {E : Type} (r : DeploymentRunner E).

(** C1. When the executor returns FAILURE for the operation at index
    [k] of a planned deployment (its first FAILURE along the plan, the
    executor being called on one operation after the other), the run
    ends there: exactly [k + 1] elements are yielded and the iteration
    is exhausted, the executor is as the call at index [k] left it (no
    later operation is executed), the deployment log is in state
    FAILURE, the operation at index [k] is recorded in state FAILURE and
    those before it in state SUCCESS, every operation after index [k] is
    untouched and still PLANNED, and the log has as many operations as
    the plan. *)
Theorem failure_stops_deployment (e0 : E) (clock : nat)
    (dl : DeploymentLog.t) (k : nat) (ek : E) :
  Forall (fun x => OperationLog.state x = OperationStateEnum.PLANNED)
    (DeploymentLog.operations dl) ->
  executions r e0 (DeploymentLog.operations dl) !! k
  = Some (Some ExecFailure, ek) ->
  (forall j x, j < k ->
     executions r e0 (DeploymentLog.operations dl) !! j = Some x ->
     x.1 <> Some ExecFailure) ->
  exists ys fin,
    run_all r e0 clock dl = (ys, fin, Exhausted)
    /\ length ys = S k
    /\ executor fin = ek
    /\ DeploymentLog.state (deployment_log fin) = DeploymentStateEnum.FAILURE
    /\ (exists ol cv,
           ys !! k = Some (ol, cv)
           /\ OperationLog.state ol = OperationStateEnum.FAILURE
           /\ DeploymentLog.operations (deployment_log fin) !! k = Some ol)
    /\ (forall j x,
           j < k ->
           DeploymentLog.operations (deployment_log fin) !! j = Some x ->
           OperationLog.state x = OperationStateEnum.SUCCESS)
    /\ (forall j x,
           k < j ->
           DeploymentLog.operations (deployment_log fin) !! j = Some x ->
           DeploymentLog.operations dl !! j = Some x
           /\ OperationLog.state x = OperationStateEnum.PLANNED)
    /\ length (DeploymentLog.operations (deployment_log fin))
       = length (DeploymentLog.operations dl).
Proof.
  intros Hplanned Hk Hfirst. unfold run_all.
  pose proof (executions_lookup_lt r _ _ _ _ Hk) as Hlt.
  destruct (drain_until_failure r k
              (S (length (DeploymentLog.operations dl)))
              (run r e0 clock dl) ek)
    as (ys & fin & Hd & Hlen & He & Hstate & Hat & Hbefore & Hafter & _
        & Hsame).
  - split; [done|]. simpl. discriminate.
  - lia.
  - simpl. by rewrite drop_0.
  - simpl. by rewrite drop_0.
  - exists ys, fin. simpl in *. repeat apply conj; try done.
    intros j x Hj Hx. rewrite (Hafter j Hj) in Hx. split; [done|].
    rewrite Forall_forall in Hplanned. apply Hplanned.
    by eapply list_elem_of_lookup_2.
Qed.

End FailureStops.

Section FailureStopsWitness.
Import Models Runner.

(** The test [test_failed_operation_stops]: the executor succeeds once,
    then fails; the plan has eight operations, and the executor's first
    FAILURE is its answer for the second. *)
Lemma failure_stops_deployment_witness :
  exists ys fin,
    run_all Scenario.failing_deployment_runner 0 0 Scenario.dag_plan
    = (ys, fin, Exhausted)
    /\ length ys = 2
    /\ executor fin = 1
    /\ DeploymentLog.state (deployment_log fin) = DeploymentStateEnum.FAILURE
    /\ length (DeploymentLog.operations (deployment_log fin)) = 8.
Proof.
  destruct (failure_stops_deployment Scenario.failing_deployment_runner
              0 0 Scenario.dag_plan 1 1)
    as (ys & fin & Hrun & Hlen & He & Hst & _ & _ & _ & Hsame).
  - repeat constructor.
  - reflexivity.
  - intros [|j] x Hj; [|lia]. intros [= <-]. discriminate.
  - exists ys, fin. repeat split; assumption.
Defined.

End FailureStopsWitness.

(** ** The emission rule *)

Section EmissionRule.
Import Models Runner.
Context {E : Type} (r : DeploymentRunner E).
#[local] Arguments emission : simpl never.
#[local] Arguments logs_for : simpl never.

Lemma emission_inv (dl_id : option Z) (op : Operation.t)
    (st : OperationStateEnum.t) (lc lc' : gmap ServiceComponent string)
    (em em' : gset ServiceComponent) (cv : option ComponentVersionLog.t) :
  emission r dl_id op st lc em = (cv, lc', em') ->
  (forall q, q ∈ em -> q ∈ em')
  /\ (forall q, is_Some (lc !! q) -> is_Some (lc' !! q))
  /\ (forall q, lc !! q = None -> is_Some (lc' !! q) -> config_on q op)
  /\ (forall c, cv = Some c ->
        ComponentVersionLog.key c = Operation.key op
        /\ is_Some (lc !! Operation.key op)
        /\ (Operation.key op ∉ em)
        /\ em' = ({[Operation.key op]} ∪ em)
        /\ lc' = lc)
  /\ (cv = None -> em' = em).
Proof.
  assert (Hsame : (cv, lc', em') = (None, lc, em) ->
    (forall q, q ∈ em -> q ∈ em')
    /\ (forall q, is_Some (lc !! q) -> is_Some (lc' !! q))
    /\ (forall q, lc !! q = None -> is_Some (lc' !! q) -> config_on q op)
    /\ (forall c, cv = Some c ->
          ComponentVersionLog.key c = Operation.key op
          /\ is_Some (lc !! Operation.key op)
          /\ (Operation.key op ∉ em)
          /\ em' = ({[Operation.key op]} ∪ em)
          /\ lc' = lc)
    /\ (cv = None -> em' = em)).
  { intros [= -> -> ->]. repeat apply conj; try done.
    intros q Hn [x Hx]. congruence. }
  unfold emission.
  destruct st; try (intros H; by apply Hsame).
  destruct (String.eqb_spec (Operation.action op) "config") as [Hc|Hc].
  { intros [= <- <- <-]. repeat apply conj; try done.
    - intros q Hq. rewrite lookup_insert. by destruct (decide _).
    - intros q Hn Hs. rewrite lookup_insert in Hs.
      destruct (decide (Operation.key op = q)) as [<-|]; [done|].
      destruct Hs as [x Hx]. congruence. }
  destruct (String.eqb (Operation.action op) "start"
            || String.eqb (Operation.action op) "restart");
    [|intros H; by apply Hsame].
  destruct (lc !! Operation.key op) as [h|] eqn:Hh;
    [|intros H; by apply Hsame].
  destruct (decide (Operation.key op ∈ em)) as [Hin|Hin];
    [intros H; by apply Hsame|].
  intros [= <- <- <-]. repeat apply conj; try done.
  - intros q Hq. apply elem_of_union. by right.
  - intros q Hn [x Hx]. congruence.
  - intros c [= <-]. repeat apply conj; done.
Qed.

Lemma emission_start_emits (dl_id : option Z) (op : Operation.t)
    (lc : gmap ServiceComponent string) (em : gset ServiceComponent)
    (p : ServiceComponent) :
  start_or_restart_on p op -> is_Some (lc !! p) -> p ∉ em ->
  exists c,
    emission r dl_id op OperationStateEnum.SUCCESS lc em
    = (Some c, lc, {[p]} ∪ em)
    /\ ComponentVersionLog.key c = p.
Proof.
  intros [Hact <-] [h Hh] Hnot. unfold emission.
  assert (String.eqb (Operation.action op) "config" = false) as ->
    by (destruct Hact as [-> | ->]; reflexivity).
  assert (String.eqb (Operation.action op) "start"
          || String.eqb (Operation.action op) "restart" = true) as ->
    by (destruct Hact as [-> | ->]; reflexivity).
  rewrite Hh. destruct (decide (Operation.key op ∈ em)); [done|].
  eexists. split; reflexivity.
Qed.

Lemma emission_config_stores (dl_id : option Z) (op : Operation.t)
    (lc : gmap ServiceComponent string) (em : gset ServiceComponent)
    (p : ServiceComponent) :
  config_on p op ->
  exists lc',
    emission r dl_id op OperationStateEnum.SUCCESS lc em = (None, lc', em)
    /\ is_Some (lc' !! p).
Proof.
  intros [Hact <-]. unfold emission. rewrite Hact. simpl.
  eexists. split; [reflexivity|]. rewrite lookup_insert_eq. by eexists.
Qed.

(** Only a successful start or restart emits, and it emits for its own
    pair. *)
Lemma emission_some_start (dl_id : option Z) (op : Operation.t)
    (st : OperationStateEnum.t) (lc lc' : gmap ServiceComponent string)
    (em em' : gset ServiceComponent) (c : ComponentVersionLog.t) :
  emission r dl_id op st lc em = (Some c, lc', em') ->
  st = OperationStateEnum.SUCCESS
  /\ start_or_restart_on (ComponentVersionLog.key c) op.
Proof.
  unfold emission. destruct st; try discriminate.
  destruct (String.eqb (Operation.action op) "config"); [discriminate|].
  destruct (String.eqb_spec (Operation.action op) "start") as [Hs|Hs];
    destruct (String.eqb_spec (Operation.action op) "restart") as [Hr|Hr];
    simpl; try discriminate;
    (destruct (lc !! Operation.key op) as [h|]; [|discriminate]);
    (destruct (decide (Operation.key op ∈ em)); [discriminate|]);
    intros [= <- _ _]; (split; [done|]); split; auto.
Qed.

Lemma logs_for_cons_True (p : ServiceComponent) (c : ComponentVersionLog.t)
    (l : list ComponentVersionLog.t) :
  ComponentVersionLog.key c = p -> logs_for p (c :: l) = c :: logs_for p l.
Proof. intros H. unfold logs_for. by rewrite filter_cons_True. Qed.

Lemma logs_for_cons_False (p : ServiceComponent) (c : ComponentVersionLog.t)
    (l : list ComponentVersionLog.t) :
  ComponentVersionLog.key c <> p -> logs_for p (c :: l) = logs_for p l.
Proof. intros H. unfold logs_for. by rewrite filter_cons_False. Qed.

(** Once a pair is marked as emitted, nothing more is emitted for it. *)
Lemma emissions_after_emitted (dl_id : option Z) (p : ServiceComponent)
    (ops : list Operation.t) :
  forall lc em,
    p ∈ em -> logs_for p (omap id (emissions r dl_id ops lc em)) = [].
Proof.
  induction ops as [|op ops IH]; intros lc em Hp; [done|].
  simpl. destruct (emission r dl_id op OperationStateEnum.SUCCESS lc em)
    as [[cv lc'] em'] eqn:Hem.
  destruct (emission_inv _ _ _ _ _ _ _ _ Hem)
    as (Hmono & _ & _ & Hsome & _).
  specialize (IH lc' em' (Hmono p Hp)).
  destruct cv as [c|]; simpl; [|done].
  destruct (Hsome c eq_refl) as (Hkey & _ & Hnot & _).
  rewrite logs_for_cons_False; [done|].
  intros Hc. congruence.
Qed.

(** A pair that has a stored hash and has not been emitted is emitted
    exactly once when a start or restart on it follows. *)
Lemma emissions_start_once (dl_id : option Z) (p : ServiceComponent)
    (ops : list Operation.t) :
  forall lc em j op,
    is_Some (lc !! p) -> p ∉ em ->
    ops !! j = Some op -> start_or_restart_on p op ->
    length (logs_for p (omap id (emissions r dl_id ops lc em))) = 1.
Proof.
  induction ops as [|o ops IH]; intros lc em j op Hlc Hem Hj Hstart; [done|].
  simpl. destruct (emission r dl_id o OperationStateEnum.SUCCESS lc em)
    as [[cv lc'] em'] eqn:He.
  destruct (emission_inv _ _ _ _ _ _ _ _ He)
    as (Hmono & Hkeep & _ & Hsome & Hnone).
  destruct cv as [c|]; simpl.
  - destruct (Hsome c eq_refl) as (Hkey & _ & Hnot & -> & ->).
    destruct (decide (ComponentVersionLog.key c = p)) as [Hp|Hp].
    + rewrite logs_for_cons_True by done.
      rewrite emissions_after_emitted; [done|].
      apply elem_of_union. left. apply elem_of_singleton. congruence.
    + rewrite logs_for_cons_False by done.
      destruct j as [|j]; simpl in Hj.
      * injection Hj as ->.
        destruct (emission_start_emits dl_id op lc em p Hstart Hlc Hem)
          as (c' & He' & Hk').
        rewrite He in He'. injection He' as -> _. done.
      * apply (IH lc _ j op); auto.
        intros Hin. apply elem_of_union in Hin as [Hin|Hin]; [|done].
        apply elem_of_singleton in Hin. congruence.
  - rewrite (Hnone eq_refl) in *.
    destruct j as [|j]; simpl in Hj.
    + injection Hj as ->.
      destruct (emission_start_emits dl_id op lc em p Hstart Hlc Hem)
        as (c' & He' & Hk').
      rewrite He in He'. discriminate.
    + apply (IH lc' em j op); auto.
Qed.

(** A pair that has not been emitted is emitted exactly once when the
    operations hold a config on it and, later, a start or restart on
    it. *)
Lemma emissions_config_start_once (dl_id : option Z) (p : ServiceComponent)
    (ops : list Operation.t) :
  forall lc em i j opc ops',
    p ∉ em -> i < j ->
    ops !! i = Some opc -> config_on p opc ->
    ops !! j = Some ops' -> start_or_restart_on p ops' ->
    length (logs_for p (omap id (emissions r dl_id ops lc em))) = 1.
Proof.
  induction ops as [|o ops IH];
    intros lc em i j opc ops' Hem Hij Hi Hconf Hj Hstart; [done|].
  destruct j as [|j]; [lia|]. simpl in Hj.
  simpl. destruct (emission r dl_id o OperationStateEnum.SUCCESS lc em)
    as [[cv lc'] em'] eqn:He.
  destruct (emission_inv _ _ _ _ _ _ _ _ He)
    as (Hmono & Hkeep & _ & Hsome & Hnone).
  destruct i as [|i]; simpl in Hi.
  - injection Hi as ->.
    destruct (emission_config_stores dl_id opc lc em p Hconf)
      as (lc1 & He1 & Hlc1).
    rewrite He in He1. injection He1 as -> -> ->. simpl.
    by apply (emissions_start_once dl_id p ops lc1 em j ops').
  - destruct cv as [c|]; simpl.
    + destruct (Hsome c eq_refl) as (Hkey & _ & Hnot & -> & ->).
      destruct (decide (ComponentVersionLog.key c = p)) as [Hp|Hp].
      * rewrite logs_for_cons_True by done.
        rewrite emissions_after_emitted; [done|].
        apply elem_of_union. left. apply elem_of_singleton. congruence.
      * rewrite logs_for_cons_False by done.
        apply (IH lc _ i j opc ops'); auto; [|lia].
        intros Hin. apply elem_of_union in Hin as [Hin|Hin]; [|done].
        apply elem_of_singleton in Hin. congruence.
    + rewrite (Hnone eq_refl) in *.
      apply (IH lc' em i j opc ops'); auto. lia.
Qed.

End EmissionRule.

(** ** Deployments whose operations all succeed *)

Section AllSucceed.
Import Models Runner.
Context {E : Type} (r : DeploymentRunner E).

Local Abbreviation ops it := (DeploymentLog.operations (deployment_log it)).
#[local] Arguments emission : simpl never.

Lemma omap_lookup_all {A B : Type} (f : A -> option B) (l : list A) :
  (forall j x, l !! j = Some x -> is_Some (f x)) ->
  forall j, omap f l !! j = l !! j ≫= f.
Proof.
  induction l as [|a l IH]; intros Hall j; [done|].
  destruct (Hall 0 a eq_refl) as [b Hb]. simpl. rewrite Hb.
  destruct j as [|j]; simpl; [done|].
  apply IH. intros k x Hk. by apply (Hall (S k)).
Qed.

Lemma omap_insert_same {A B : Type} (f : A -> option B) (l : list A)
    (i : nat) (x y : A) :
  l !! i = Some x -> f y = f x -> omap f (<[i := y]> l) = omap f l.
Proof.
  revert i. induction l as [|a l IH]; intros i Hi Hf; [done|].
  destruct i as [|i]; simpl in *.
  - injection Hi as ->. by rewrite Hf.
  - specialize (IH i Hi Hf). unfold omap in IH. by rewrite IH.
Qed.

Lemma plan_operations_lookup (dl : DeploymentLog.t) (j : nat) :
  known r dl -> plan_operations r dl !! j = operation_at r dl j.
Proof.
  intros Hknown. unfold plan_operations, operation_at.
  rewrite omap_lookup_all.
  - by destruct (DeploymentLog.operations dl !! j).
  - intros k x Hk. specialize (Hknown k (lookup_lt_Some _ _ _ Hk)).
    unfold operation_at in Hknown. by rewrite Hk in Hknown.
Qed.

Lemma omap_snd_emitted
    (ys : list (OperationLog.t * option ComponentVersionLog.t)) :
  emitted_logs ys = omap id (snd <$> ys).
Proof.
  unfold emitted_logs. induction ys as [|[ol [c|]] ys IH]; [done| |].
  - change (c :: omap snd ys = c :: omap id (snd <$> ys)). by rewrite IH.
  - change (omap snd ys = omap id (snd <$> ys)). done.
Qed.

(** With an executor that never fails and a plan within the catalog,
    the loop gets one element per remaining operation, the deployment
    ends in SUCCESS, and what the elements carry is what the emission
    rule gives along the plan. *)
Lemma drain_success (fuel : nat) :
  forall (it : DeploymentIterator E) ys fin o,
    never_fails r ->
    known r (deployment_log it) ->
    ready it ->
    length (ops it) - position it < fuel ->
    drain r fuel it = (ys, fin, o) ->
    o = Exhausted
    /\ DeploymentLog.state (deployment_log fin) = DeploymentStateEnum.SUCCESS
    /\ length ys = length (ops it) - position it
    /\ snd <$> ys
       = emissions r (DeploymentLog.id (deployment_log it))
           (drop (position it) (plan_operations r (deployment_log it)))
           (last_configured it) (emitted it)
    /\ DeploymentLog.component_version (deployment_log fin)
       = (DeploymentLog.component_version (deployment_log it)
            ++ emitted_logs ys)%list.
Proof.
  induction fuel as [|fuel IH];
    intros it ys fin o Hnf Hknown Hready Hfuel Hd; [lia|].
  simpl in Hd. rewrite (next_ready r it Hready) in Hd.
  destruct (ops it !! position it) as [ol0|] eqn:Hl.
  2: { injection Hd as <- <- <-. apply lookup_ge_None in Hl.
       repeat apply conj; simpl; try done.
       - lia.
       - rewrite drop_ge; [done|].
         apply lookup_ge_None. rewrite plan_operations_lookup by done.
         unfold operation_at. by rewrite (proj2 (lookup_ge_None _ _) Hl).
       - by rewrite app_nil_r. }
  pose proof (lookup_lt_Some _ _ _ Hl) as Hlt.
  assert (Hat : operation_at r (deployment_log it) (position it)
                = collections r !! OperationLog.operation ol0)
    by (unfold operation_at; by rewrite Hl).
  destruct (Hknown _ Hlt) as [op Hop]. rewrite Hat in Hop.
  destruct (step_yield r it ol0 op Hop)
    as (st & out & cv0 & it' & Hstep & Hst & Hem & Hpos & Hlast & Hfin
        & Hops & Hcv & Hid).
  assert (st = OperationStateEnum.SUCCESS) as ->.
  { destruct (Operation.noop op); [done|]. by rewrite Hst, Hnf. }
  rewrite Hstep in Hd.
  destruct (drain r fuel it') as [[ys' fin'] o'] eqn:Hd'.
  injection Hd as <- <- <-.
  assert (Hplan : plan_operations r (deployment_log it')
                  = plan_operations r (deployment_log it)).
  { unfold plan_operations. rewrite Hops.
    by apply (omap_insert_same _ _ _ ol0). }
  assert (Hknown' : known r (deployment_log it')).
  { intros k Hk. rewrite Hops, length_insert in Hk.
    rewrite (operation_at_insert r (deployment_log it) (deployment_log it')
               (position it) ol0 _ k Hl Hops eq_refl).
    by apply Hknown. }
  assert (Hready' : ready it') by (split; [done|]; congruence).
  assert (Hfuel' : length (ops it') - position it' < fuel)
    by (rewrite Hops, length_insert, Hpos; lia).
  destruct (IH it' ys' fin' o' Hnf Hknown' Hready' Hfuel' Hd')
    as (Ho & Hs & Hlen & Hemis & Hcvs).
  repeat apply conj; try done.
  - simpl. rewrite Hlen, Hops, length_insert, Hpos. lia.
  - rewrite fmap_cons. simpl.
    rewrite (drop_S _ op (position it))
      by (by rewrite plan_operations_lookup, Hat).
    simpl. rewrite Hem, Hemis, Hplan, Hpos, Hid. done.
  - rewrite Hcvs, Hcv, <- app_assoc. unfold emitted_logs.
    by destruct cv0.
Qed.

End AllSucceed.

Section ConfigThenStart.
Import Models Runner.
Context {E : Type} (r : DeploymentRunner E).

(** C3. In a deployment whose operations all succeed, when the plan
    holds a config on a pair and, later, a start or restart on the same
    pair, exactly one version log is emitted for that pair, whatever
    else the plan holds on that pair (further configs, a restart after
    the start) and whatever the stale components are. The plans
    [config; start; restart] and [config; start; config; restart] are
    the instances with the config at index 0 and the start at index 1. *)
Theorem config_then_start_emits_once (e0 : E) (clock : nat)
    (dl : DeploymentLog.t) (p : ServiceComponent) (i j : nat)
    (op_config op_start : Operation.t)
    (ys : list (OperationLog.t * option ComponentVersionLog.t))
    (fin : DeploymentIterator E) (o : Outcome) :
  never_fails r ->
  known r dl ->
  i < j ->
  operation_at r dl i = Some op_config -> config_on p op_config ->
  operation_at r dl j = Some op_start -> start_or_restart_on p op_start ->
  run_all r e0 clock dl = (ys, fin, o) ->
  o = Exhausted
  /\ DeploymentLog.state (deployment_log fin) = DeploymentStateEnum.SUCCESS
  /\ length ys = length (DeploymentLog.operations dl)
  /\ length (logs_for p (emitted_logs ys)) = 1
  /\ DeploymentLog.component_version (deployment_log fin)
     = (DeploymentLog.component_version dl ++ emitted_logs ys)%list.
Proof.
  intros Hnf Hknown Hij Hi Hconf Hj Hstart Hrun. unfold run_all in Hrun.
  assert (Hready : ready (run r e0 clock dl)) by (split; done).
  assert (Hfuel : length (DeploymentLog.operations
                            (deployment_log (run r e0 clock dl)))
                  - position (run r e0 clock dl)
                  < S (length (DeploymentLog.operations dl)))
    by (simpl; lia).
  destruct (drain_success r _ (run r e0 clock dl) ys fin o Hnf Hknown
              Hready Hfuel Hrun)
    as (Ho & Hs & Hlen & Hemis & Hcvs).
  simpl in Hlen, Hemis, Hcvs. rewrite Nat.sub_0_r in Hlen.
  repeat apply conj; try done.
  rewrite drop_0 in Hemis. rewrite omap_snd_emitted, Hemis.
  apply (emissions_config_start_once r _ p _ _ _ i j op_config op_start).
  - apply not_elem_of_empty.
  - exact Hij.
  - by rewrite plan_operations_lookup.
  - exact Hconf.
  - by rewrite plan_operations_lookup.
  - exact Hstart.
Qed.

End ConfigThenStart.

Section ConfigThenStartWitness.
Import Models Runner.

(** [MockExecutor] never fails. *)
Lemma mock_executor_never_fails : never_fails Scenario.deployment_runner.
Proof. intros e op. reflexivity. Qed.

(** The tests [test_service_log_emitted_once_with_start_and_restart] and
    [test_service_log_emitted_once_with_multiple_config_and_start_on_same_component]. *)
Lemma config_then_start_emits_once_witness :
  (exists ys fin o,
      run_all Scenario.deployment_runner tt 0
        (Scenario.planned DeploymentTypeEnum.OPERATIONS
           ["mock_config"; "mock_start"; "mock_restart"])
      = (ys, fin, o)
      /\ DeploymentLog.state (deployment_log fin)
         = DeploymentStateEnum.SUCCESS
      /\ length (logs_for ("mock", None) (emitted_logs ys)) = 1)
  /\ (exists ys fin o,
         run_all Scenario.deployment_runner tt 0
           (Scenario.planned DeploymentTypeEnum.OPERATIONS
              ["mock_node_config"; "mock_node_start"; "mock_node_config";
               "mock_node_restart"])
         = (ys, fin, o)
         /\ DeploymentLog.state (deployment_log fin)
            = DeploymentStateEnum.SUCCESS
         /\ length (logs_for ("mock", Some "node") (emitted_logs ys)) = 1).
Proof.
  split.
  - destruct (run_all Scenario.deployment_runner tt 0
                (Scenario.planned DeploymentTypeEnum.OPERATIONS
                   ["mock_config"; "mock_start"; "mock_restart"]))
      as [[ys fin] o] eqn:Hrun.
    exists ys, fin, o. split; [reflexivity|].
    destruct (config_then_start_emits_once Scenario.deployment_runner tt 0
                (Scenario.planned DeploymentTypeEnum.OPERATIONS
                   ["mock_config"; "mock_start"; "mock_restart"])
                ("mock", None) 0 1
                (Scenario.op "mock_config" "mock" None "config" false)
                (Scenario.op "mock_start" "mock" None "start" false)
                ys fin o)
      as (_ & Hs & _ & Hone & _).
    + exact mock_executor_never_fails.
    + intros k Hk. simpl in Hk.
      destruct k as [|[|[|k]]]; try lia; eexists; vm_compute; reflexivity.
    + lia.
    + reflexivity.
    + split; reflexivity.
    + reflexivity.
    + split; [left|]; reflexivity.
    + exact Hrun.
    + split; assumption.
  - destruct (run_all Scenario.deployment_runner tt 0
                (Scenario.planned DeploymentTypeEnum.OPERATIONS
                   ["mock_node_config"; "mock_node_start";
                    "mock_node_config"; "mock_node_restart"]))
      as [[ys fin] o] eqn:Hrun.
    exists ys, fin, o. split; [reflexivity|].
    destruct (config_then_start_emits_once Scenario.deployment_runner tt 0
                (Scenario.planned DeploymentTypeEnum.OPERATIONS
                   ["mock_node_config"; "mock_node_start";
                    "mock_node_config"; "mock_node_restart"])
                ("mock", Some "node") 0 1
                (Scenario.op "mock_node_config" "mock" (Some "node")
                   "config" false)
                (Scenario.op "mock_node_start" "mock" (Some "node")
                   "start" false)
                ys fin o)
      as (_ & Hs & _ & Hone & _).
    + exact mock_executor_never_fails.
    + intros k Hk. simpl in Hk.
      destruct k as [|[|[|[|k]]]]; try lia; eexists; vm_compute; reflexivity.
    + lia.
    + reflexivity.
    + split; reflexivity.
    + reflexivity.
    + split; [left|]; reflexivity.
    + exact Hrun.
    + split; assumption.
Defined.

End ConfigThenStartWitness.

(** ** A start before any config *)

Section StartBeforeConfig.
Import Models Runner.
Context {E : Type} (r : DeploymentRunner E).

Local Abbreviation ops it := (DeploymentLog.operations (deployment_log it)).
#[local] Arguments emission : simpl never.

(** An element that carries a version log does so for the pair of its
    operation; and if the working map had no hash for that pair when the
    loop began, a config on the pair was executed earlier in the loop. *)
Lemma drain_emitted_after_config (fuel : nat) :
  forall (it : DeploymentIterator E) ys fin o m ol c,
    drain r fuel it = (ys, fin, o) ->
    ready it ->
    ys !! m = Some (ol, Some c) ->
    (exists op,
        operation_at r (deployment_log it) (position it + m) = Some op
        /\ ComponentVersionLog.key c = Operation.key op)
    /\ (last_configured it !! ComponentVersionLog.key c = None ->
        exists j opj,
          j < m
          /\ operation_at r (deployment_log it) (position it + j) = Some opj
          /\ config_on (ComponentVersionLog.key c) opj).
Proof.
  induction fuel as [|fuel IH]; intros it ys fin o m ol c Hd Hready Hm.
  { injection Hd as <- <- <-. done. }
  simpl in Hd. rewrite (next_ready r it Hready) in Hd.
  destruct (ops it !! position it) as [ol0|] eqn:Hl.
  2: { injection Hd as <- <- <-. done. }
  destruct (collections r !! OperationLog.operation ol0) as [op|] eqn:Hop.
  2: { unfold step in Hd. rewrite Hop in Hd. injection Hd as <- <- <-. done. }
  assert (Hat : operation_at r (deployment_log it) (position it) = Some op)
    by (unfold operation_at; by rewrite Hl).
  destruct (step_yield r it ol0 op Hop)
    as (st & out & cv0 & it' & Hstep & Hst & Hem & Hpos & Hlast & Hfin
        & Hops & Hcv & Hid).
  rewrite Hstep in Hd.
  destruct (drain r fuel it') as [[ys' fin'] o'] eqn:Hd'.
  injection Hd as <- <- <-.
  destruct (emission_inv r _ _ _ _ _ _ _ _ Hem)
    as (_ & _ & Hnew & Hsome & _).
  destruct m as [|m]; simpl in Hm.
  - injection Hm as <- ->. rewrite Nat.add_0_r.
    destruct (Hsome c eq_refl) as (Hkey & [h Hh] & _).
    split; [by exists op|]. intros Hnone. congruence.
  - assert (Hne : st <> OperationStateEnum.FAILURE).
    { intros ->. destruct fuel as [|fuel]; simpl in Hd'.
      - injection Hd' as <- <- <-. done.
      - rewrite (next_after_failure r it' Hfin Hlast) in Hd'.
        injection Hd' as <- <- <-. done. }
    assert (Hready' : ready it') by (split; [done|]; congruence).
    destruct (IH it' ys' fin' o' m ol c Hd' Hready' Hm)
      as [(opm & Hopm & Hkey) Hconf].
    assert (Hsame : forall k, operation_at r (deployment_log it') k
                              = operation_at r (deployment_log it) k).
    { intros k. by eapply operation_at_insert. }
    rewrite Hpos, Hsame in Hopm.
    replace (position it + S m) with (S (position it) + m) by lia.
    split; [by exists opm|]. intros Hnone.
    destruct (last_configured it' !! ComponentVersionLog.key c) as [h|] eqn:Hh.
    + exists 0, op. rewrite Nat.add_0_r. split; [lia|]. split; [done|].
      apply Hnew; [done|]. by rewrite Hh.
    + destruct (Hconf eq_refl) as (j & opj & Hj & Hopj & Hc).
      rewrite Hpos, Hsame in Hopj.
      exists (S j), opj. split; [lia|].
      replace (position it + S j) with (S (position it) + j) by lia. done.
Qed.

(** An element that carries a version log is that of a start or restart
    on the log's pair. *)
Lemma drain_emitted_by_start (fuel : nat) :
  forall (it : DeploymentIterator E) ys fin o m ol c,
    drain r fuel it = (ys, fin, o) ->
    ready it ->
    ys !! m = Some (ol, Some c) ->
    exists op,
      operation_at r (deployment_log it) (position it + m) = Some op
      /\ start_or_restart_on (ComponentVersionLog.key c) op.
Proof.
  induction fuel as [|fuel IH]; intros it ys fin o m ol c Hd Hready Hm.
  { injection Hd as <- <- <-. done. }
  simpl in Hd. rewrite (next_ready r it Hready) in Hd.
  destruct (ops it !! position it) as [ol0|] eqn:Hl.
  2: { injection Hd as <- <- <-. done. }
  destruct (collections r !! OperationLog.operation ol0) as [op|] eqn:Hop.
  2: { unfold step in Hd. rewrite Hop in Hd. injection Hd as <- <- <-. done. }
  assert (Hat : operation_at r (deployment_log it) (position it) = Some op)
    by (unfold operation_at; by rewrite Hl).
  destruct (step_yield r it ol0 op Hop)
    as (st & out & cv0 & it' & Hstep & Hst & Hem & Hpos & Hlast & Hfin
        & Hops & Hcv & Hid).
  rewrite Hstep in Hd.
  destruct (drain r fuel it') as [[ys' fin'] o'] eqn:Hd'.
  injection Hd as <- <- <-.
  destruct m as [|m]; simpl in Hm.
  - injection Hm as <- ->. rewrite Nat.add_0_r.
    exists op. split; [done|]. by eapply emission_some_start.
  - assert (Hne : st <> OperationStateEnum.FAILURE).
    { intros ->. destruct fuel as [|fuel]; simpl in Hd'.
      - injection Hd' as <- <- <-. done.
      - rewrite (next_after_failure r it' Hfin Hlast) in Hd'.
        injection Hd' as <- <- <-. done. }
    assert (Hready' : ready it') by (split; [done|]; congruence).
    destruct (IH it' ys' fin' o' m ol c Hd' Hready' Hm) as (opm & Hopm & Hs).
    rewrite Hpos in Hopm.
    rewrite (operation_at_insert r (deployment_log it) (deployment_log it')
               (position it) ol0 _ _ Hl Hops eq_refl) in Hopm.
    exists opm. split; [|done].
    by replace (position it + S m) with (S (position it) + m) by lia.
Qed.

(** However the loop ends, the version logs of the deployment log are
    those it had, followed by those the elements carried. *)
Lemma drain_component_version (fuel : nat) :
  forall (it : DeploymentIterator E) ys fin o,
    drain r fuel it = (ys, fin, o) ->
    DeploymentLog.component_version (deployment_log fin)
    = (DeploymentLog.component_version (deployment_log it)
         ++ emitted_logs ys)%list.
Proof.
  induction fuel as [|fuel IH]; intros it ys fin o Hd.
  { injection Hd as <- <- <-. by rewrite app_nil_r. }
  simpl in Hd. unfold next in Hd.
  destruct (finished it).
  { injection Hd as <- <- <-. by rewrite app_nil_r. }
  destruct (decide (last_state it = Some OperationStateEnum.FAILURE)).
  { injection Hd as <- <- <-. simpl. by rewrite app_nil_r. }
  destruct (ops it !! position it) as [ol0|] eqn:Hl.
  2: { injection Hd as <- <- <-. simpl. by rewrite app_nil_r. }
  destruct (collections r !! OperationLog.operation ol0) as [op|] eqn:Hop.
  2: { unfold step in Hd. rewrite Hop in Hd. injection Hd as <- <- <-.
       simpl. rewrite app_nil_r.
       by destruct (Nat.eqb (position it) 0). }
  destruct (step_yield r it ol0 op Hop)
    as (st & out & cv0 & it' & Hstep & Hst & Hem & Hpos & Hlast & Hfin
        & Hops & Hcv & Hid).
  rewrite Hstep in Hd.
  destruct (drain r fuel it') as [[ys' fin'] o'] eqn:Hd'.
  injection Hd as <- <- <-.
  rewrite (IH it' ys' fin' o' Hd'), Hcv, <- app_assoc.
  unfold emitted_logs. by destruct cv0.
Qed.

(** C4, counterexample. With no stale component, the plan
    [mock_node_start; mock_node_config; mock_node_restart] has a start
    on the pair (mock, node) that runs before any config on that pair;
    the restart that follows the config emits a version log for the
    pair, and the deployment ends in SUCCESS. *)
Lemma start_config_restart_emits :
  stale_components Scenario.deployment_runner = []
  /\ operation_at Scenario.deployment_runner
       (Scenario.planned DeploymentTypeEnum.OPERATIONS
          ["mock_node_start"; "mock_node_config"; "mock_node_restart"]) 0
     = Some (Scenario.op "mock_node_start" "mock" (Some "node") "start"
               false)
  /\ start_on ("mock", Some "node")
       (Scenario.op "mock_node_start" "mock" (Some "node") "start" false)
  /\ exists ys fin,
       run_all Scenario.deployment_runner tt 0
         (Scenario.planned DeploymentTypeEnum.OPERATIONS
            ["mock_node_start"; "mock_node_config"; "mock_node_restart"])
       = (ys, fin, Exhausted)
       /\ DeploymentLog.state (deployment_log fin)
          = DeploymentStateEnum.SUCCESS
       /\ logs_for ("mock", Some "node") (emitted_logs ys)
          = [ComponentVersionLog.mk None "mock" (Some "node")
               "hash-of-mock_node"]
       /\ DeploymentLog.component_version (deployment_log fin)
          = [ComponentVersionLog.mk None "mock" (Some "node")
               "hash-of-mock_node"].
Proof.
  split; [reflexivity|]. split; [reflexivity|]. split; [by split|].
  eexists _, _. split; [vm_compute; reflexivity|]. by repeat split.
Qed.

(** C4, amended. In a deployment started without stale components, a
    start on a pair that runs before any config on that pair emits no
    version log: the element of that start carries none, and no element
    up to it carries a log for the pair. When, in addition, no start or
    restart on the pair comes after a config on it, no version log is
    emitted for the pair in the whole deployment: no element carries
    one and the deployment log gains none. When the executor never fails
    and the plan is within the catalog, the deployment still ends in
    SUCCESS. *)
Theorem start_before_config_emits_nothing (e0 : E) (clock : nat)
    (dl : DeploymentLog.t) (p : ServiceComponent) (i : nat)
    (op_start : Operation.t)
    (ys : list (OperationLog.t * option ComponentVersionLog.t))
    (fin : DeploymentIterator E) (o : Outcome) :
  stale_components r = [] ->
  operation_at r dl i = Some op_start -> start_on p op_start ->
  (forall j opj, j < i -> operation_at r dl j = Some opj ->
                 ~ config_on p opj) ->
  run_all r e0 clock dl = (ys, fin, o) ->
  (forall ol cv, ys !! i = Some (ol, cv) -> cv = None)
  /\ (forall m ol c, m <= i -> ys !! m = Some (ol, Some c) ->
        ComponentVersionLog.key c <> p)
  /\ ((forall j k opj opk,
          j < k ->
          operation_at r dl j = Some opj -> config_on p opj ->
          operation_at r dl k = Some opk -> ~ start_or_restart_on p opk) ->
      logs_for p (emitted_logs ys) = []
      /\ logs_for p (DeploymentLog.component_version (deployment_log fin))
         = logs_for p (DeploymentLog.component_version dl))
  /\ (never_fails r -> known r dl ->
      o = Exhausted
      /\ DeploymentLog.state (deployment_log fin)
         = DeploymentStateEnum.SUCCESS
      /\ length ys = length (DeploymentLog.operations dl)).
Proof.
  intros Hstale Hi [Hact Hkey] Hnoconf Hrun. unfold run_all in Hrun.
  assert (Hready : ready (run r e0 clock dl)) by (split; done).
  assert (Hseed : forall q, last_configured (run r e0 clock dl) !! q = None).
  { intros q. simpl. rewrite Hstale. simpl. apply lookup_empty. }
  assert (Hpair : forall m ol c, m <= i -> ys !! m = Some (ol, Some c) ->
                    ComponentVersionLog.key c <> p).
  { intros m ol c Hm Hy Hc.
    destruct (drain_emitted_after_config _ _ _ _ _ m ol c Hrun Hready Hy)
      as [_ Hconf].
    destruct (Hconf (Hseed _)) as (j & opj & Hj & Hopj & Hcj).
    simpl in Hopj. rewrite Hc in Hcj.
    apply (Hnoconf j opj); [lia|done..]. }
  split; [|split; [exact Hpair|split]].
  - intros ol [c|] Hy; [|done]. exfalso.
    destruct (drain_emitted_after_config _ _ _ _ _ i ol c Hrun Hready Hy)
      as [(op & Hop & Hc) _].
    simpl in Hop. rewrite Hi in Hop. injection Hop as <-.
    apply (Hpair i ol c); [lia|done|congruence].
  - intros Horder.
    assert (Hnone : logs_for p (emitted_logs ys) = []).
    { apply filter_none. intros c Hc Hp.
      apply list_elem_of_omap in Hc as ([ol cv] & Hin & Hcv).
      simpl in Hcv. subst cv.
      apply list_elem_of_lookup_1 in Hin as [m Hy].
      destruct (drain_emitted_after_config _ _ _ _ _ m ol c Hrun Hready Hy)
        as [_ Hconf].
      destruct (Hconf (Hseed _)) as (j & opj & Hj & Hopj & Hcj).
      destruct (drain_emitted_by_start _ _ _ _ _ m ol c Hrun Hready Hy)
        as (opm & Hopm & Hs).
      simpl in Hopj, Hopm. rewrite Hp in Hcj, Hs.
      by apply (Horder j m opj opm). }
    split; [exact Hnone|].
    rewrite (drain_component_version _ _ _ _ _ Hrun). simpl.
    unfold logs_for in *. by rewrite filter_app, Hnone, app_nil_r.
  - intros Hnf Hknown.
    assert (Hfuel : length (DeploymentLog.operations
                              (deployment_log (run r e0 clock dl)))
                    - position (run r e0 clock dl)
                    < S (length (DeploymentLog.operations dl)))
      by (simpl; lia).
    destruct (drain_success r _ (run r e0 clock dl) ys fin o Hnf Hknown
                Hready Hfuel Hrun)
      as (Ho & Hs & Hlen & _).
    simpl in Hlen. rewrite Nat.sub_0_r in Hlen. done.
Qed.

End StartBeforeConfig.

Section StartBeforeConfigWitness.
Import Models Runner.

(** The test [test_service_log_not_emitted_when_config_start_wrong_order]:
    the plan [mock_node_start; mock_node_config] holds no start or
    restart after its config, and its deployment ends in SUCCESS without
    a version log. *)
Lemma start_before_config_emits_nothing_witness :
  exists ys fin o,
    run_all Scenario.deployment_runner tt 0
      (Scenario.planned DeploymentTypeEnum.OPERATIONS
         ["mock_node_start"; "mock_node_config"])
    = (ys, fin, o)
    /\ (forall ol cv, ys !! 0 = Some (ol, cv) -> cv = None)
    /\ logs_for ("mock", Some "node") (emitted_logs ys) = []
    /\ logs_for ("mock", Some "node")
         (DeploymentLog.component_version (deployment_log fin)) = []
    /\ DeploymentLog.state (deployment_log fin) = DeploymentStateEnum.SUCCESS
    /\ length ys = 2.
Proof.
  destruct (run_all Scenario.deployment_runner tt 0
              (Scenario.planned DeploymentTypeEnum.OPERATIONS
                 ["mock_node_start"; "mock_node_config"]))
    as [[ys fin] o] eqn:Hrun.
  exists ys, fin, o. split; [reflexivity|].
  destruct (start_before_config_emits_nothing Scenario.deployment_runner
              tt 0
              (Scenario.planned DeploymentTypeEnum.OPERATIONS
                 ["mock_node_start"; "mock_node_config"])
              ("mock", Some "node") 0
              (Scenario.op "mock_node_start" "mock" (Some "node")
                 "start" false)
              ys fin o)
    as (Hnone & _ & Hall & Hok).
  - reflexivity.
  - reflexivity.
  - split; reflexivity.
  - intros j opj Hj. lia.
  - exact Hrun.
  - destruct Hall as [Hemitted Hlog].
    { intros j k opj opk Hjk Hj Hcj Hk [Hact _].
      destruct k as [|[|k]]; [lia| |discriminate Hk].
      injection Hk as <-. destruct Hact; discriminate. }
    destruct Hok as (_ & Hs & Hlen).
    + exact mock_executor_never_fails.
    + intros k Hk. simpl in Hk.
      destruct k as [|[|k]]; try lia; eexists; vm_compute; reflexivity.
    + repeat split; assumption.
Defined.

End StartBeforeConfigWitness.

(* ===================================================================== *)
(** * Further properties *)
(* ===================================================================== *)

(** ** Which rows the latest-version query returns *)

Section LatestVersionsRows.
Import Models Queries.
Local Open Scope Z_scope.

Lemma sql_and_true (a b : option bool) :
  sql_and a b = Some true <-> a = Some true /\ b = Some true.
Proof. destruct a as [[]|], b as [[]|]; simpl; intuition congruence. Qed.

Lemma sql_or_true (a b : option bool) :
  sql_or a b = Some true <-> a = Some true \/ b = Some true.
Proof. destruct a as [[]|], b as [[]|]; simpl; intuition congruence. Qed.

Lemma sql_in_true_iff {A B : Type} (eq : A -> B -> option bool) (x : A)
    (rows : list B) :
  sql_in eq x rows = Some true <-> exists y, y ∈ rows /\ eq x y = Some true.
Proof.
  split.
  - induction rows as [|z rows IH]; simpl; [discriminate|].
    intros H. apply sql_or_true in H as [H|H].
    + exists z. split; [left|done].
    + destruct (IH H) as (y & Hy & Hxy). exists y. split; [by right|done].
  - intros (y & Hy & Hxy). by apply (sql_in_true eq x rows y).
Qed.

Lemma group_max_unique (rows : list ServiceComponentLog.t)
    (k : ServiceComponent) (m m' : Z) :
  group_max rows k m -> group_max rows k m' -> m = m'.
Proof.
  intros [(r & Hr & Hk & <-) Hle] [(r' & Hr' & Hk' & <-) Hle'].
  apply Z.le_antisymm; auto.
Qed.

(** The subquery holds one row per pair of the table, with the greatest
    deployment id of the pair. *)
Lemma latest_deployed_service_component_spec
    (rows : list ServiceComponentLog.t)
    (g : option Z * string * option string) :
  g ∈ latest_deployed_service_component rows
  <-> exists m, g.1.1 = Some m /\ group_max rows (g.1.2, g.2) m.
Proof.
  unfold latest_deployed_service_component.
  change (map ?f ?l) with (f <$> l).
  rewrite list_elem_of_fmap. split.
  - intros (k & -> & Hk). rewrite elem_of_remove_dups in Hk.
    apply list_elem_of_fmap in Hk as (r0 & -> & Hr0).
    assert (Hin : ServiceComponentLog.deployment_id r0
                  ∈ ServiceComponentLog.deployment_id
                      <$> base.filter
                            (fun r => ServiceComponentLog.key r
                                      = ServiceComponentLog.key r0) rows).
    { apply list_elem_of_fmap_2. by apply list_elem_of_filter. }
    destruct (sql_max_spec _ _ Hin) as (m & Hm & Hmin & Hge).
    exists m. split; [done|].
    change (group_max rows (ServiceComponentLog.key r0) m). split.
    + apply list_elem_of_fmap in Hmin as (r & -> & Hr).
      apply list_elem_of_filter in Hr as [Hk Hr]. by exists r.
    + intros r Hr Hk. apply Hge. apply list_elem_of_fmap_2.
      by apply list_elem_of_filter.
  - intros (m & Hg & Hmax).
    exists (g.1.2, g.2). destruct Hmax as [(r & Hr & Hk & Hid) Hle].
    split.
    + assert (Hin : ServiceComponentLog.deployment_id r
                    ∈ ServiceComponentLog.deployment_id
                        <$> base.filter
                              (fun r => ServiceComponentLog.key r
                                        = (g.1.2, g.2)) rows).
      { apply list_elem_of_fmap_2. by apply list_elem_of_filter. }
      destruct (sql_max_spec _ _ Hin) as (m' & Hm' & Hmin & Hge).
      assert (m' = m) as ->.
      { apply Z.le_antisymm.
        - apply list_elem_of_fmap in Hmin as (r' & -> & Hr').
          apply list_elem_of_filter in Hr' as [Hk' Hr']. by apply Hle.
        - rewrite <- Hid. by apply Hge. }
      change (map ?f ?l) with (f <$> l). rewrite Hm'.
      destruct g as [[gm gs] gc]. simpl in *. by rewrite Hg.
    + apply elem_of_remove_dups. rewrite <- Hk. by apply list_elem_of_fmap_2.
Qed.

(** A row of the table passes the filter exactly when it carries a
    component and the greatest deployment id of its pair, or carries no
    component and the greatest deployment id of some pair of its
    service. *)
Lemma latest_filter_true_iff (rows : list ServiceComponentLog.t)
    (r : ServiceComponentLog.t) :
  latest_filter (latest_deployed_service_component rows) r = Some true
  <-> (exists c, ServiceComponentLog.component r = Some c
                 /\ group_max rows (ServiceComponentLog.key r)
                      (ServiceComponentLog.deployment_id r))
      \/ (ServiceComponentLog.component r = None
          /\ exists c', group_max rows (ServiceComponentLog.service r, c')
                          (ServiceComponentLog.deployment_id r)).
Proof.
  unfold latest_filter. rewrite sql_or_true, sql_and_true, !sql_in_true_iff.
  split.
  - intros [(g & Hg & Heq) | [(g2 & Hg2 & Heq) Hnull]].
    + left. apply latest_deployed_service_component_spec in Hg
        as (m & Hgm & Hmax).
      unfold tuple3_eq in Heq. rewrite Hgm in Heq.
      apply sql_and_true in Heq as [Heq H3].
      apply sql_and_true in Heq as [H1 H2]. simpl in H1, H2.
      injection H1 as H1. injection H2 as H2.
      apply Z.eqb_eq in H1. apply String.eqb_eq in H2.
      destruct (ServiceComponentLog.component r) as [c|] eqn:Hc;
        [|discriminate].
      destruct (g.2) as [c'|] eqn:Hc'; [|discriminate].
      simpl in H3. injection H3 as H3. apply String.eqb_eq in H3.
      exists c. split; [done|]. unfold ServiceComponentLog.key.
      rewrite Hc, H1, H2, H3. done.
    + right. injection Hnull as Hnull. apply bool_decide_eq_true_1 in Hnull.
      split; [done|].
      change (map ?f ?l) with (f <$> l) in Hg2.
      apply list_elem_of_fmap in Hg2 as (g & -> & Hg).
      apply latest_deployed_service_component_spec in Hg
        as (m & Hgm & Hmax).
      unfold tuple2_eq in Heq. simpl in Heq. rewrite Hgm in Heq.
      apply sql_and_true in Heq as [H1 H2]. simpl in H1, H2.
      injection H1 as H1. injection H2 as H2.
      apply Z.eqb_eq in H1. apply String.eqb_eq in H2.
      exists (g.2). by rewrite H1, H2.
  - intros [(c & Hc & Hmax) | (Hc & c' & Hmax)].
    + left.
      exists (Some (ServiceComponentLog.deployment_id r),
              ServiceComponentLog.service r, Some c).
      split.
      * apply latest_deployed_service_component_spec. eexists.
        split; [done|]. simpl. unfold ServiceComponentLog.key in Hmax.
        by rewrite Hc in Hmax.
      * unfold tuple3_eq. simpl. rewrite Hc. simpl.
        by rewrite Z.eqb_refl, !String.eqb_refl.
    + right. split; [|by rewrite bool_decide_eq_true_2].
      exists (Some (ServiceComponentLog.deployment_id r),
              ServiceComponentLog.service r).
      split.
      * change (map ?f ?l) with (f <$> l).
        apply (list_elem_of_fmap_2' _ _
                 (Some (ServiceComponentLog.deployment_id r),
                  ServiceComponentLog.service r, c')); [|done].
        apply latest_deployed_service_component_spec. eexists.
        split; done.
      * unfold tuple2_eq. simpl.
        by rewrite Z.eqb_refl, String.eqb_refl.
Qed.

Lemma latest_query_elem (session : Session)
    (x : Z * string * option string * string) :
  x ∈ get_latest_success_service_component_version_query session
  <-> exists r,
        r ∈ service_component_log session
        /\ x = projection r
        /\ latest_filter
             (latest_deployed_service_component
                (service_component_log session)) r = Some true.
Proof.
  unfold get_latest_success_service_component_version_query.
  change (map projection ?l) with (projection <$> l).
  rewrite list_elem_of_fmap. split.
  - intros (r & -> & Hr). rewrite merge_sort_Permutation in Hr.
    apply list_elem_of_filter in Hr as [Hkeep Hr]. by exists r.
  - intros (r & Hr & -> & Hkeep). exists r. split; [done|].
    rewrite merge_sort_Permutation. by apply list_elem_of_filter.
Qed.

(** X1. A result row with a component is the projection of a row of the
    table that carries the greatest deployment id of its (service,
    component) pair, and every such row is in the result. *)
Theorem latest_query_component_rows (session : Session) (d : Z)
    (s c v : string) :
  (d, s, Some c, v)
    ∈ get_latest_success_service_component_version_query session
  <-> exists r,
        r ∈ service_component_log session
        /\ projection r = (d, s, Some c, v)
        /\ group_max (service_component_log session) (s, Some c) d.
Proof.
  rewrite latest_query_elem. split.
  - intros (r & Hr & Hx & Hkeep). exists r. split; [done|]. split; [done|].
    injection Hx as -> -> Hc ->.
    apply latest_filter_true_iff in Hkeep
      as [(c0 & Hc0 & Hmax) | (Hnone & _)]; [|congruence].
    unfold ServiceComponentLog.key in Hmax. by rewrite <- Hc in Hmax.
  - intros (r & Hr & Hx & Hmax). exists r. split; [done|]. split; [done|].
    injection Hx as <- <- Hc <-.
    apply latest_filter_true_iff. left. exists c. split; [done|].
    unfold ServiceComponentLog.key. by rewrite Hc.
Qed.

(** X2. A result row without a component is the projection of a
    service-level row of the table whose deployment id is the greatest
    of some pair of the same service, its own or that of a component,
    and every such row is in the result. *)
Theorem latest_query_service_rows (session : Session) (d : Z)
    (s v : string) :
  (d, s, None, v)
    ∈ get_latest_success_service_component_version_query session
  <-> exists r,
        r ∈ service_component_log session
        /\ projection r = (d, s, None, v)
        /\ exists c', group_max (service_component_log session) (s, c') d.
Proof.
  rewrite latest_query_elem. split.
  - intros (r & Hr & Hx & Hkeep). exists r. split; [done|]. split; [done|].
    injection Hx as -> -> Hc ->.
    apply latest_filter_true_iff in Hkeep
      as [(c0 & Hc0 & _) | (_ & Hmax)]; [congruence|done].
  - intros (r & Hr & Hx & Hmax). exists r. split; [done|]. split; [done|].
    injection Hx as <- <- Hc <-.
    apply latest_filter_true_iff. by right.
Qed.

End LatestVersionsRows.

(** ** Order and shape of the query results *)

Section QueryResults.
Import Models Queries.

Lemma StronglySorted_lookup {A : Type} (R : relation A) (l : list A)
    (i j : nat) (x y : A) :
  StronglySorted R l -> i < j -> l !! i = Some x -> l !! j = Some y ->
  R x y.
Proof.
  intros Hs. revert i j. induction Hs as [|a l Hs IH Hall];
    intros i j Hij Hi Hj; [done|].
  destruct j as [|j]; [lia|]. simpl in Hj.
  destruct i as [|i]; simpl in Hi.
  - injection Hi as ->. rewrite Forall_forall in Hall. apply Hall.
    by eapply list_elem_of_lookup_2.
  - apply (IH i j); [lia|done..].
Qed.

Lemma order_leb_deployment_id (nf : bool) (a b : ServiceComponentLog.t) :
  Is_true (order_leb nf a b) ->
  (ServiceComponentLog.deployment_id b
   <= ServiceComponentLog.deployment_id a)%Z.
Proof.
  unfold order_leb.
  destruct (Z.ltb_spec (ServiceComponentLog.deployment_id b)
              (ServiceComponentLog.deployment_id a)); [lia|].
  destruct (Z.ltb_spec (ServiceComponentLog.deployment_id a)
              (ServiceComponentLog.deployment_id b)); [done|lia].
Qed.

(** X3. The result of the latest-version query is sorted by the
    [order_by] clause (descending deployment id, then service, then
    component); in particular the deployment id never increases from a
    row to any later row. *)
Theorem latest_query_ordered (session : Session) :
  Sorted (fun x y => Is_true (result_leb (nulls_first session) x y))
    (get_latest_success_service_component_version_query session)
  /\ forall i j x y,
       i < j ->
       get_latest_success_service_component_version_query session !! i
       = Some x ->
       get_latest_success_service_component_version_query session !! j
       = Some y ->
       (y.1.1.1 <= x.1.1.1)%Z.
Proof.
  unfold get_latest_success_service_component_version_query.
  change (map projection ?l) with (projection <$> l).
  pose proof (@Sorted_merge_sort _ _ _
                (order_leb_total (nulls_first session))
                (base.filter
                   (fun r => latest_filter
                               (latest_deployed_service_component
                                  (service_component_log session)) r
                             = Some true)
                   (service_component_log session))) as Hsorted.
  split.
  - eapply Sorted_fmap; [|exact Hsorted]. intros a b Hab. exact Hab.
  - intros i j x y Hij Hi Hj.
    eapply (StronglySorted_lookup
              (fun x y : Z * string * option string * string =>
                 (y.1.1.1 <= x.1.1.1)%Z) _ i j x y);
      [|exact Hij|exact Hi|exact Hj].
    assert (Htrans : Transitive
                       (fun x y : Z * string * option string * string =>
                          (y.1.1.1 <= x.1.1.1)%Z))
      by (intros a b c Hab Hbc; simpl in *; lia).
    apply (@Sorted_StronglySorted _ _ Htrans).
    eapply Sorted_fmap; [|exact Hsorted].
    intros a b Hab. exact (order_leb_deployment_id _ a b Hab).
Qed.

Lemma substring_prefix_length (n : nat) (s : string) :
  String.length (String.substring 0 n s) = min n (String.length s)
  /\ String.prefix (String.substring 0 n s) s = true
  /\ (String.length s <= n -> String.substring 0 n s = s).
Proof.
  revert s. induction n as [|n IH]; intros s.
  - destruct s; simpl; repeat split; try done. lia.
  - destruct s as [|c s]; simpl; [done|].
    destruct (IH s) as (Hlen & Hpre & Hsame).
    repeat split.
    + by rewrite Hlen.
    + destruct (Ascii.ascii_dec c c); [done|congruence].
    + intros Hle. rewrite Hsame; [done|lia].
Qed.

(** X4. Every row of the result carries the deployment id, service and
    component of a row of the table and, as version, the first seven
    characters of that row's version: a prefix of it, at most seven
    characters long, and the version itself when it has seven characters
    or fewer. *)
Theorem latest_query_short_versions (session : Session) :
  Forall
    (fun x =>
       exists r,
         r ∈ service_component_log session
         /\ x.1 = (ServiceComponentLog.deployment_id r,
                   ServiceComponentLog.service r,
                   ServiceComponentLog.component r)
         /\ String.length x.2 = min 7 (String.length
                                         (ServiceComponentLog.version r))
         /\ String.prefix x.2 (ServiceComponentLog.version r) = true
         /\ (String.length (ServiceComponentLog.version r) <= 7 ->
             x.2 = ServiceComponentLog.version r))
    (get_latest_success_service_component_version_query session).
Proof.
  apply Forall_forall. intros x Hx.
  apply latest_query_truncates in Hx as (r & Hr & ->).
  exists r. split; [done|]. split; [done|]. simpl.
  apply substring_prefix_length.
Qed.

Lemma order_by_id_desc_sorted (rows : list DeploymentLog.t) :
  StronglySorted
    (fun a b => Is_true (id_leb (DeploymentLog.id b) (DeploymentLog.id a)))
    (order_by_id_desc rows).
Proof.
  apply (@StronglySorted_merge_sort _ _ _ id_desc_trans id_desc_total).
Qed.

(** X5. A page of [get_deployments] holds [limit] deployments, or those
    left after [offset] when fewer are; each one is a row of the table;
    and ids never increase from a deployment of the page to a later
    one. *)
Theorem get_deployments_page (session : Session) (limit offset : nat) :
  length (get_deployments session limit offset)
  = min limit (length (deployment_log session) - offset)
  /\ (forall d, d ∈ get_deployments session limit offset ->
                d ∈ deployment_log session)
  /\ forall i j a b,
       i < j ->
       get_deployments session limit offset !! i = Some a ->
       get_deployments session limit offset !! j = Some b ->
       Is_true (id_leb (DeploymentLog.id b) (DeploymentLog.id a)).
Proof.
  unfold get_deployments. repeat apply conj.
  - rewrite length_take, length_drop. unfold order_by_id_desc.
    by rewrite (Permutation_length (merge_sort_Permutation _ _)).
  - intros d Hd. apply subseteq_take, subseteq_drop in Hd.
    unfold order_by_id_desc in Hd. by rewrite merge_sort_Permutation in Hd.
  - intros i j a b Hij Hi Hj.
    pose proof (order_by_id_desc_sorted (deployment_log session)) as Hs.
    rewrite <- (take_drop offset) in Hs.
    apply StronglySorted_app_1_r in Hs.
    rewrite <- (take_drop limit (drop offset _)) in Hs.
    apply StronglySorted_app_1_l in Hs.
    by apply (StronglySorted_lookup _ _ i j a b Hs).
Qed.

(** X6. Consecutive pages of [get_deployments] put end to end are the
    page of their joint size: the page of [n] after [offset] followed by
    the page of [m] after [offset + n] is the page of [n + m] after
    [offset]. *)
Theorem get_deployments_pages_compose (session : Session)
    (n m offset : nat) :
  (get_deployments session n offset
   ++ get_deployments session m (offset + n))%list
  = get_deployments session (n + m) offset.
Proof.
  unfold get_deployments.
  rewrite <- (drop_drop _ n offset). apply take_take_drop.
Qed.

(** X7. [get_last_deployment] returns the deployment that the first page
    of size one of [get_deployments] holds, and fails, with the
    exception raised from [NoResultFound], exactly when that page is
    empty. *)
Theorem get_last_deployment_is_first_page (session : Session) :
  (forall d, get_last_deployment session = Ok d
             <-> get_deployments session 1 0 = [d])
  /\ (get_last_deployment session
      = Err (Exception NoDeployments NoResultFound)
      <-> get_deployments session 1 0 = [])
  /\ forall e, get_last_deployment session = Err e ->
               e = Exception NoDeployments NoResultFound.
Proof.
  unfold get_last_deployment, get_deployments. rewrite drop_0.
  destruct (order_by_id_desc (deployment_log session)) as [|d0 rest]; simpl.
  - repeat split; try done. by intros e [= <-].
  - repeat split; try done.
    + by intros [= ->].
    + by intros [= ->].
Qed.

End QueryResults.

(** ** What the lookups return *)

Section FilterPositions.
Context {A : Type} (P : A -> Prop) `{Pdec : !forall x, Decision (P x)}.

Lemma filter_singleton_position (l : list A) (x : A) :
  base.filter P l = [x] ->
  exists j, l !! j = Some x /\ P x
            /\ forall k y, l !! k = Some y -> P y -> k = j.
Proof.
  intros Hf.
  assert (Hx : x ∈ base.filter P l) by (rewrite Hf; left).
  apply list_elem_of_filter in Hx as [Px Hx].
  apply list_elem_of_lookup_1 in Hx as [j Hj].
  exists j. split; [done|]. split; [done|].
  intros k y Hk Py. destruct (decide (k = j)) as [|Hne]; [done|].
  destruct (filter_two_positions P l k j y x Hne Hk Hj Py Px)
    as (a & b & rest & Hab).
  congruence.
Qed.

Lemma filter_several_positions (l : list A) (a b : A) (rest : list A) :
  base.filter P l = a :: b :: rest ->
  exists j k x y,
    j <> k /\ l !! j = Some x /\ l !! k = Some y /\ P x /\ P y.
Proof.
  revert a b rest. induction l as [|h l IH]; intros a b rest Hf; [done|].
  destruct (decide (P h)) as [Ph|Ph].
  - rewrite filter_cons_True in Hf by done. injection Hf as <- Hf.
    assert (Hb : b ∈ base.filter P l) by (rewrite Hf; left).
    apply list_elem_of_filter in Hb as [Pb Hb].
    apply list_elem_of_lookup_1 in Hb as [k Hk].
    exists 0, (S k), h, b. repeat split; done.
  - rewrite filter_cons_False in Hf by done.
    destruct (IH a b rest Hf) as (j & k & x & y & Hne & Hj & Hk & Px & Py).
    exists (S j), (S k), x, y. repeat split; try done. lia.
Qed.

End FilterPositions.

Section LookupResults.
Import Models Queries.

(** X8. [get_planned_deployment_log] returns nothing exactly when no
    deployment is PLANNED, returns a deployment exactly when it is the
    only PLANNED row of the table, and raises [MultipleResultsFound],
    its only exception, exactly when two rows of the table are
    PLANNED. *)
Theorem get_planned_deployment_log_cases (session : Session) :
  (get_planned_deployment_log session = Ok None
   <-> forall d, d ∈ deployment_log session -> ~ is_planned d)
  /\ (forall p,
         get_planned_deployment_log session = Ok (Some p)
         <-> exists j,
               deployment_log session !! j = Some p /\ is_planned p
               /\ forall k d, deployment_log session !! k = Some d ->
                              is_planned d -> k = j)
  /\ (get_planned_deployment_log session = Err MultipleResultsFound
      <-> exists j k d1 d2,
            j <> k
            /\ deployment_log session !! j = Some d1
            /\ deployment_log session !! k = Some d2
            /\ is_planned d1 /\ is_planned d2)
  /\ forall e, get_planned_deployment_log session = Err e ->
               e = MultipleResultsFound.
Proof.
  unfold get_planned_deployment_log.
  change (fun d => DeploymentLog.state d = DeploymentStateEnum.PLANNED)
    with is_planned.
  destruct (base.filter is_planned (deployment_log session))
    as [|a [|b rest]] eqn:Hf; simpl.
  - split; [|split; [|split]].
    + split; [|done]. intros _ d Hd Pd.
      by apply (filter_nil_not_elem_of is_planned _ d Hf).
    + intros p. split; [done|]. intros (j & Hj & Pp & _).
      exfalso. apply (filter_nil_not_elem_of is_planned _ p Hf Pp).
      by eapply list_elem_of_lookup_2.
    + split; [done|]. intros (j & k & d1 & d2 & _ & Hj & _ & P1 & _).
      exfalso. apply (filter_nil_not_elem_of is_planned _ d1 Hf P1).
      by eapply list_elem_of_lookup_2.
    + done.
  - destruct (filter_singleton_position is_planned _ a Hf)
      as (j & Hj & Pa & Huniq).
    split; [|split; [|split]].
    + split; [done|]. intros Hno. exfalso. apply (Hno a); [|done].
      by eapply list_elem_of_lookup_2.
    + intros p. split.
      * intros [= <-]. by exists j.
      * intros (j' & Hj' & Pp & Huniq').
        pose proof (filter_unique_position is_planned _ j' p Hj' Pp Huniq')
          as Hp.
        congruence.
    + split; [done|]. intros (j1 & k1 & d1 & d2 & Hne & Hj1 & Hk1 & P1 & P2).
      pose proof (Huniq _ _ Hj1 P1). pose proof (Huniq _ _ Hk1 P2). lia.
    + done.
  - split; [|split; [|split]].
    + split; [done|]. intros Hno. exfalso. apply (Hno a).
      * assert (Ha : a ∈ base.filter is_planned (deployment_log session))
          by (rewrite Hf; left).
        by apply list_elem_of_filter in Ha as [_ Ha].
      * assert (Ha : a ∈ base.filter is_planned (deployment_log session))
          by (rewrite Hf; left).
        by apply list_elem_of_filter in Ha as [Ha _].
    + intros p. split; [done|]. intros (j & Hj & Pp & Huniq).
      pose proof (filter_unique_position is_planned _ j p Hj Pp Huniq).
      congruence.
    + split; [|done]. intros _.
      by apply (filter_several_positions is_planned _ a b rest).
    + by intros e [= <-].
Qed.

End LookupResults.

(** ** The options and arguments of [plan dag] *)

Section DagArguments.
Import Models PlanDag.

(** X10. The callback [validate_filtertype] maps the name of a member of
    [FilterTypeEnum] to that member and no other string to a member: any
    other string raises [KeyError], and no value stays no value. *)
Theorem validate_filtertype_round_trip :
  (forall f, validate_filtertype (Some (FilterTypeEnum.name f))
             = Ok (Some f))
  /\ (forall v f, validate_filtertype (Some v) = Ok (Some f) ->
                  v = FilterTypeEnum.name f)
  /\ (forall v, (forall f, v <> FilterTypeEnum.name f) ->
                validate_filtertype (Some v) = Err (KeyError v))
  /\ validate_filtertype None = Ok None.
Proof.
  split; [by intros []|]. split; [|split; [|done]].
  - intros v f. unfold validate_filtertype, FilterTypeEnum.getitem.
    destruct (String.eqb_spec v "GLOB") as [->|_]; [by intros [= <-]|].
    destruct (String.eqb_spec v "REGEX") as [->|_]; [by intros [= <-]|].
    discriminate.
  - intros v Hno. unfold validate_filtertype, FilterTypeEnum.getitem.
    destruct (String.eqb_spec v "GLOB") as [->|_].
    { by destruct (Hno FilterTypeEnum.GLOB). }
    destruct (String.eqb_spec v "REGEX") as [->|_].
    { by destruct (Hno FilterTypeEnum.REGEX). }
    done.
Qed.

Lemma split_comma_not_nil (s : string) : split_comma s <> [].
Proof.
  destruct s as [|c s]; simpl; [done|].
  destruct (Ascii.eqb c ","); [done|]. by destruct (split_comma s).
Qed.

Lemma join_comma_cons (n : string) (rest : list string) :
  rest <> [] -> join_comma (n :: rest) = n ++ "," ++ join_comma rest.
Proof. by destruct rest. Qed.

Lemma split_comma_spec (s : string) :
  join_comma (split_comma s) = s
  /\ (forall n, n ∈ split_comma s ->
                ","%char ∉ list_ascii_of_string n)
  /\ length (split_comma s)
     = S (length (base.filter (fun c => c = ","%char)
                    (list_ascii_of_string s))).
Proof.
  induction s as [|c s (IHj & IHn & IHl)].
  - simpl. split; [done|]. split; [|done].
    intros n Hn. apply list_elem_of_singleton in Hn as ->. simpl.
    apply not_elem_of_nil.
  - simpl. destruct (Ascii.eqb_spec c ",") as [->|Hc].
    + split; [|split].
      * rewrite join_comma_cons by apply split_comma_not_nil.
        simpl. by rewrite IHj.
      * intros n Hn. apply elem_of_cons in Hn as [-> | Hn]; [|by apply IHn].
        simpl. apply not_elem_of_nil.
      * rewrite filter_cons_True by done. simpl. by rewrite IHl.
    + pose proof (split_comma_not_nil s) as Hne.
      destruct (split_comma s) as [|h t] eqn:Hs; [done|].
      split; [|split].
      * rewrite <- IHj. by destruct t.
      * intros n Hn. apply elem_of_cons in Hn as [-> | Hn].
        -- simpl. intros Hin. apply elem_of_cons in Hin as [Hin | Hin];
             [congruence|]. apply (IHn h); [left|done].
        -- apply IHn. by right.
      * rewrite filter_cons_False by done. simpl in *. done.
Qed.

(** X11. A non-empty [--sources] (or [--targets]) argument is split at
    its commas: the listed names joined with commas give the argument
    back, no listed name holds a comma, and there is one name more than
    there are commas, so that a leading, trailing or doubled comma lists
    the empty name. *)
Theorem listed_round_trip (c : ascii) (s : string) :
  join_comma (listed (Some (String c s))) = String c s
  /\ (forall n, n ∈ listed (Some (String c s)) ->
                ","%char ∉ list_ascii_of_string n)
  /\ length (listed (Some (String c s)))
     = S (length (base.filter (fun c => c = ","%char)
                    (list_ascii_of_string (String c s))))
  /\ listed (Some EmptyString) = []
  /\ listed None = [].
Proof.
  unfold listed. cbn [truthy split_arg default].
  destruct (split_comma_spec (String c s)) as (Hj & Hn & Hl).
  repeat split; done.
Qed.

End DagArguments.

(** ** The command [plan dag] and the deployment table *)

Section DagEffects.
Import Models Queries PlanDag.
Context {DagT : Type}.
Variable Dag : Collections -> result Exn DagT.
Variable operations : DagT -> gset string.
Variable from_dag :
  DagT -> option (list string) -> option (list string) ->
  option string -> option FilterTypeEnum.t -> bool ->
  result Exn DeploymentLog.t.

(** X13. When the variables directory exists and the DAG loads, the
    command fails with the not-valid-nodes [BadParameter] exactly when
    some listed source or target is not an operation of the DAG. *)
Theorem not_valid_nodes_iff_unknown (a : Args)
    (ft : option FilterTypeEnum.t) (db : Session) (d : DagT) :
  vars_exists a = true ->
  Dag (collections a) = Ok d ->
  (exists set_difference,
      (dag Dag operations from_dag a ft db).1.1
      = Err (BadParameter (NotValidNodes set_difference)))
  <-> exists n, n ∈ listed_nodes a /\ n ∉ operations d.
Proof.
  intros Hvars Hdag. unfold dag. rewrite Hvars, Hdag. simpl.
  destruct (decide ((list_to_set (listed (sources a))
                       ∪ list_to_set (listed (targets a)))
                      ∖ operations d = (∅ : gset string))) as [He|Hne].
  - rewrite bool_decide_eq_true_2 by done. simpl. split.
    + intros [diff Hr]. exfalso.
      destruct (from_dag d _ _ _ _ _) as [new|e0]; [|discriminate].
      unfold persist, Utils.get_planned_deployment_log in Hr.
      by destruct (base.filter _ (deployment_log db)) as [|p [|q rest]].
    + intros (n & Hn & Hno). exfalso. apply Hno.
      by apply (proj1 (set_difference_empty_iff operations a d) He).
  - rewrite bool_decide_eq_false_2 by done. simpl. split; [|by eauto].
    intros _.
    destruct (decide (Forall (fun n => n ∈ operations d) (listed_nodes a)))
      as [Hall|Hnot].
    + exfalso. apply Hne, set_difference_empty_iff.
      by apply Forall_forall.
    + apply not_Forall_Exists in Hnot; [|apply _].
      apply Exists_exists in Hnot as (n & Hn & Hno). eauto.
Qed.

End DagEffects.

Section DagPersist.
Import Models Queries PlanDag.
Context {DagT : Type}.
Variable Dag : Collections -> result Exn DagT.
Variable operations : DagT -> gset string.
Variable from_dag :
  DagT -> option (list string) -> option (list string) ->
  option string -> option FilterTypeEnum.t -> bool ->
  result Exn DeploymentLog.t.

(** What the session block leaves in the table: the new plan, stored
    under a key [i], is the only PLANNED row and the only row with the
    key [i]; [i] is the key of the object that was merged. *)
Lemma persist_then_lookup (new : DeploymentLog.t) (db : Session) :
  is_planned new ->
  DeploymentLog.id new = None ->
  NoDup (DeploymentLog.id <$> deployment_log db) ->
  (forall r, r ∈ deployment_log db -> is_Some (DeploymentLog.id r)) ->
  at_most_one_planned (deployment_log db) ->
  exists i merged ev,
    persist new db = (Ok tt, merge merged db, ev)
    /\ default (next_id (deployment_log db)) (DeploymentLog.id merged) = i
    /\ DeploymentLog.set_id (Some i) merged = DeploymentLog.set_id (Some i) new
    /\ base.filter is_planned (deployment_log (merge merged db))
       = [persisted i new]
    /\ base.filter (fun d => DeploymentLog.id d = Some i)
         (deployment_log (merge merged db))
       = [persisted i new].
Proof.
  intros Hst Hid Hpk Hids Hinv.
  destruct (planned_cases _ Hinv) as [Hnone | (j & p & Hj & Hp)].
  - destruct (persist_adds new db Hnone Hid) as (-> & Htable & Hfresh).
    destruct (stored_as_new _ new _ Hpk Hnone Hfresh Hst) as (_ & Hpl & Hrow).
    exists (next_id (deployment_log db)). eexists _, _.
    split; [reflexivity|]. rewrite Htable, Hid. done.
  - destruct (Hids p ltac:(by eapply list_elem_of_lookup_2)) as [i Hi].
    destruct (persist_overwrites new db j p i Hpk Hinv Hj Hp Hi)
      as (-> & Htable & _).
    destruct (stored_over_planned _ j p new i Hpk Hinv Hj Hp Hi Hst)
      as (_ & Hpl & Hrow).
    exists i. eexists _, _. split; [reflexivity|]. rewrite Htable. done.
Qed.

Lemma filter_filter_same {A : Type} (P : A -> Prop)
    `{Pdec : !forall x, Decision (P x)} (l : list A) :
  base.filter P (base.filter P l) = base.filter P l.
Proof.
  induction l as [|x l IH]; [done|].
  destruct (decide (P x)) as [Px|Px].
  - by rewrite !filter_cons_True, IH.
  - by rewrite filter_cons_False.
Qed.

Lemma replace_twice {A : Type} (P : A -> Prop)
    `{Pdec : !forall x, Decision (P x)} (l new : list A) :
  (forall x, x ∈ new -> ~ P x) ->
  (base.filter P (base.filter P l ++ new) ++ new)%list
  = (base.filter P l ++ new)%list.
Proof.
  intros Hnew.
  rewrite filter_app, filter_filter_same, (filter_none P new Hnew).
  by rewrite app_nil_r.
Qed.

Lemma merge_row_twice (i : Z) (row : DeploymentLog.t)
    (table : list DeploymentLog.t) :
  DeploymentLog.id row = Some i ->
  merge_row i row (merge_row i row table) = merge_row i row table.
Proof.
  intros Hrow. unfold merge_row at 2 3.
  set (f := fun r : DeploymentLog.t =>
              if decide (DeploymentLog.id r = Some i) then row else r).
  assert (Hf : forall r, f (f r) = f r).
  { intros r. unfold f. destruct (decide (DeploymentLog.id r = Some i)).
    - by rewrite decide_True.
    - by rewrite decide_False. }
  destruct (existsb _ table) eqn:Hex.
  - unfold merge_row.
    assert (existsb (fun r => bool_decide (DeploymentLog.id r = Some i))
              (map f table) = true) as ->.
    { apply existsb_exists in Hex as (r & Hr & Hid).
      apply bool_decide_eq_true_1 in Hid.
      apply existsb_exists. exists row. split.
      - apply in_map_iff. exists r. split; [|done].
        unfold f. by rewrite decide_True.
      - by apply bool_decide_eq_true_2. }
    fold f. rewrite map_map. apply map_ext. exact Hf.
  - unfold merge_row.
    assert (existsb (fun r => bool_decide (DeploymentLog.id r = Some i))
              (table ++ [row]) = true) as ->.
    { apply existsb_exists. exists row. split.
      - apply in_or_app. right. by left.
      - by apply bool_decide_eq_true_2. }
    fold f. rewrite map_app. simpl. f_equal.
    + rewrite <- (map_id table) at 2. apply map_ext_in. intros r Hr.
      unfold f. rewrite decide_False; [done|]. intros Hid.
      assert (existsb (fun r => bool_decide (DeploymentLog.id r = Some i))
                table = true) as Ht; [|congruence].
      apply existsb_exists. exists r. split; [done|].
      by apply bool_decide_eq_true_2.
    + unfold f. by rewrite decide_True.
Qed.

(** Merging again what was merged, under the key it was stored with,
    changes nothing. *)
Lemma merge_again (d : DeploymentLog.t) (db : Session) :
  merge
    (DeploymentLog.set_id
       (Some (default (next_id (deployment_log db)) (DeploymentLog.id d))) d)
    (merge d db)
  = merge d db.
Proof.
  set (i := default (next_id (deployment_log db)) (DeploymentLog.id d)).
  unfold merge at 1. simpl. fold i.
  change (merge d db)
    with (mkSession
            (merge_row i (persisted i d) (deployment_log db))
            (base.filter (fun o => OperationLog.deployment_id o <> Some i)
               (operation_log db)
             ++ DeploymentLog.operations (persisted i d))
            (base.filter (fun c => ServiceComponentLog.deployment_id c <> i)
               (service_component_log db)
             ++ map (version_row i)
                  (DeploymentLog.component_version (persisted i d)))
            (nulls_first db)).
  simpl. f_equal.
  - by apply merge_row_twice.
  - apply replace_twice. change (map ?f ?l) with (f <$> l).
    intros o Ho. apply list_elem_of_fmap in Ho as (o0 & -> & _).
    simpl. tauto.
  - apply replace_twice. change (map ?f ?l) with (f <$> l).
    intros c Hc. apply list_elem_of_fmap in Hc as (c0 & -> & _).
    simpl. tauto.
Qed.

(** X14. When no deployment is PLANNED, a successful [plan dag] adds one
    row at the end of the deployment table, the new plan under an id
    greater than every id of the table, and changes no other row. *)
Theorem plan_dag_adds_row (a : Args) (ft : option FilterTypeEnum.t)
    (db : Session) (d : DagT) (new : DeploymentLog.t) :
  vars_exists a = true ->
  Dag (collections a) = Ok d ->
  (forall n, n ∈ listed_nodes a -> n ∈ operations d) ->
  from_dag d (split_arg (sources a)) (split_arg (targets a)) (filter a) ft
    (restart a) = Ok new ->
  DeploymentLog.id new = None ->
  (forall r, r ∈ deployment_log db -> ~ is_planned r) ->
  exists i db' ev,
    dag Dag operations from_dag a ft db = (Ok tt, db', ev)
    /\ deployment_log db'
       = (deployment_log db ++ [persisted i new])%list
    /\ forall r k, r ∈ deployment_log db -> DeploymentLog.id r = Some k ->
                    (k < i)%Z.
Proof.
  intros Hvars Hdag Hknown Hnew Hid Hnone.
  destruct (dag_reaches_persist Dag operations from_dag a ft db d new
              Hvars Hdag Hknown Hnew) as [e1 ->].
  destruct (persist_adds new db Hnone Hid) as (-> & Htable & _).
  eexists _, _, _. split; [reflexivity|]. split; [exact Htable|].
  intros r k. apply next_id_above.
Qed.

(** X16. After a successful [plan dag] on a table that has unique ids
    and at most one PLANNED row, [get_planned_deployment_log] returns
    the plan just built, as it was stored under its id, and
    [get_deployment] returns it for that id. *)
Theorem plan_dag_then_lookup (a : Args) (ft : option FilterTypeEnum.t)
    (db : Session) (d : DagT) (new : DeploymentLog.t) :
  vars_exists a = true ->
  Dag (collections a) = Ok d ->
  (forall n, n ∈ listed_nodes a -> n ∈ operations d) ->
  from_dag d (split_arg (sources a)) (split_arg (targets a)) (filter a) ft
    (restart a) = Ok new ->
  is_planned new ->
  DeploymentLog.id new = None ->
  NoDup (DeploymentLog.id <$> deployment_log db) ->
  (forall r, r ∈ deployment_log db -> is_Some (DeploymentLog.id r)) ->
  at_most_one_planned (deployment_log db) ->
  exists i db' ev,
    dag Dag operations from_dag a ft db = (Ok tt, db', ev)
    /\ get_planned_deployment_log db' = Ok (Some (persisted i new))
    /\ get_deployment db' i = Ok (persisted i new).
Proof.
  intros Hvars Hdag Hknown Hnew Hst Hid Hpk Hids Hinv.
  destruct (dag_reaches_persist Dag operations from_dag a ft db d new
              Hvars Hdag Hknown Hnew) as [e1 ->].
  destruct (persist_then_lookup new db Hst Hid Hpk Hids Hinv)
    as (i & merged & ev & -> & _ & _ & Hplanned & Hrow).
  exists i. eexists _, _. split; [reflexivity|].
  unfold get_planned_deployment_log, get_deployment.
  change (fun d => DeploymentLog.state d = DeploymentStateEnum.PLANNED)
    with is_planned.
  by rewrite Hplanned, Hrow.
Qed.

(** X17. Planning twice is planning once: on a table that has unique
    ids and at most one PLANNED row, a second [plan dag] with the same
    arguments succeeds and leaves the database (the deployment table,
    the operation logs and the version logs) as the first left it. *)
Theorem plan_dag_idempotent (a : Args) (ft : option FilterTypeEnum.t)
    (db : Session) (d : DagT) (new : DeploymentLog.t) :
  vars_exists a = true ->
  Dag (collections a) = Ok d ->
  (forall n, n ∈ listed_nodes a -> n ∈ operations d) ->
  from_dag d (split_arg (sources a)) (split_arg (targets a)) (filter a) ft
    (restart a) = Ok new ->
  is_planned new ->
  DeploymentLog.id new = None ->
  NoDup (DeploymentLog.id <$> deployment_log db) ->
  (forall r, r ∈ deployment_log db -> is_Some (DeploymentLog.id r)) ->
  at_most_one_planned (deployment_log db) ->
  exists db' ev ev',
    dag Dag operations from_dag a ft db = (Ok tt, db', ev)
    /\ dag Dag operations from_dag a ft db' = (Ok tt, db', ev').
Proof.
  intros Hvars Hdag Hknown Hnew Hst Hid Hpk Hids Hinv.
  destruct (dag_reaches_persist Dag operations from_dag a ft db d new
              Hvars Hdag Hknown Hnew) as [e1 ->].
  destruct (persist_then_lookup new db Hst Hid Hpk Hids Hinv)
    as (i & merged & ev & -> & Hkey & Hsame & Hplanned & Hrow).
  destruct (dag_reaches_persist Dag operations from_dag a ft
              (merge merged db) d new Hvars Hdag Hknown Hnew)
    as [e1' Hsecond].
  eexists _, _, _. split; [reflexivity|]. rewrite Hsecond.
  unfold persist, Utils.get_planned_deployment_log.
  rewrite Hplanned. simpl.
  rewrite <- Hsame, <- Hkey, merge_again. reflexivity.
Qed.

End DagPersist.

Section DagPersistExamples.
Import Models Queries PlanDag.

(** [plan dag --sources mock_install,mock_init] on the scenarios: the
    arguments, the DAG and the plan built. *)
Lemma scenario_guards :
  vars_exists (Scenario.args (Some "mock_install,mock_init") true) = true
  /\ Scenario.Dag
       (collections (Scenario.args (Some "mock_install,mock_init") true))
     = Ok Scenario.minimal_collections
  /\ (forall n,
         n ∈ listed_nodes (Scenario.args (Some "mock_install,mock_init") true)
         -> n ∈ Scenario.operations Scenario.minimal_collections)
  /\ Scenario.from_dag Scenario.minimal_collections
       (split_arg (sources (Scenario.args (Some "mock_install,mock_init")
                              true)))
       (split_arg (targets (Scenario.args (Some "mock_install,mock_init")
                              true)))
       (filter (Scenario.args (Some "mock_install,mock_init") true))
       None
       (restart (Scenario.args (Some "mock_install,mock_init") true))
     = Ok (Scenario.planned DeploymentTypeEnum.DAG
             ["mock_install"; "mock_init"]).
Proof.
  split; [reflexivity|]. split; [reflexivity|]. split; [|reflexivity].
  apply Forall_forall. apply (bool_decide_unpack _). vm_compute. exact I.
Defined.

(** [plan dag --sources mock_instal]: the name is not an operation. *)
Lemma not_valid_nodes_iff_unknown_witness :
  (exists set_difference,
      (dag Scenario.Dag Scenario.operations Scenario.from_dag
         (Scenario.args (Some "mock_instal") true) None
         Scenario.session).1.1
      = Err (BadParameter (NotValidNodes set_difference)))
  <-> exists n,
        n ∈ listed_nodes (Scenario.args (Some "mock_instal") true)
        /\ n ∉ Scenario.operations Scenario.minimal_collections.
Proof.
  apply (not_valid_nodes_iff_unknown Scenario.Dag Scenario.operations
           Scenario.from_dag (Scenario.args (Some "mock_instal") true)
           None Scenario.session Scenario.minimal_collections);
    reflexivity.
Defined.

(** Planning on a table where no deployment is planned: a second row is
    added for the plan. *)
Lemma plan_dag_adds_row_witness :
  exists i db' ev,
    dag Scenario.Dag Scenario.operations Scenario.from_dag
      (Scenario.args (Some "mock_install,mock_init") true) None
      Scenario.finished_session
    = (Ok tt, db', ev)
    /\ deployment_log db'
       = (deployment_log Scenario.finished_session
          ++ [persisted i
                (Scenario.planned DeploymentTypeEnum.DAG
                   ["mock_install"; "mock_init"])])%list
    /\ forall r k, r ∈ deployment_log Scenario.finished_session ->
                    DeploymentLog.id r = Some k -> (k < i)%Z.
Proof.
  destruct scenario_guards as (Hvars & Hdag & Hknown & Hnew).
  apply (plan_dag_adds_row Scenario.Dag Scenario.operations
           Scenario.from_dag _ None Scenario.finished_session
           Scenario.minimal_collections _ Hvars Hdag Hknown Hnew).
  - reflexivity.
  - apply Forall_forall. apply (bool_decide_unpack _). vm_compute. exact I.
Defined.

Lemma scenario_session_invariants :
  NoDup (DeploymentLog.id <$> deployment_log Scenario.session)
  /\ (forall r, r ∈ deployment_log Scenario.session ->
                is_Some (DeploymentLog.id r))
  /\ at_most_one_planned (deployment_log Scenario.session).
Proof.
  split; [|split].
  - apply (bool_decide_unpack _). vm_compute. exact I.
  - apply Forall_forall. repeat constructor; eexists; reflexivity.
  - unfold at_most_one_planned. vm_compute. lia.
Defined.

(** Planning on the scenario, where deployment 2 is planned, then
    looking the plan up. *)
Lemma plan_dag_then_lookup_witness :
  exists i db' ev,
    dag Scenario.Dag Scenario.operations Scenario.from_dag
      (Scenario.args (Some "mock_install,mock_init") true) None
      Scenario.session
    = (Ok tt, db', ev)
    /\ get_planned_deployment_log db'
       = Ok (Some (persisted i
                     (Scenario.planned DeploymentTypeEnum.DAG
                        ["mock_install"; "mock_init"])))
    /\ get_deployment db' i
       = Ok (persisted i
               (Scenario.planned DeploymentTypeEnum.DAG
                  ["mock_install"; "mock_init"])).
Proof.
  destruct scenario_guards as (Hvars & Hdag & Hknown & Hnew).
  destruct scenario_session_invariants as (Hpk & Hids & Hinv).
  apply (plan_dag_then_lookup Scenario.Dag Scenario.operations
           Scenario.from_dag _ None Scenario.session
           Scenario.minimal_collections _ Hvars Hdag Hknown Hnew);
    [reflexivity | reflexivity | exact Hpk | exact Hids | exact Hinv].
Defined.

(** Planning twice on the scenario. *)
Lemma plan_dag_idempotent_witness :
  exists db' ev ev',
    dag Scenario.Dag Scenario.operations Scenario.from_dag
      (Scenario.args (Some "mock_install,mock_init") true) None
      Scenario.session
    = (Ok tt, db', ev)
    /\ dag Scenario.Dag Scenario.operations Scenario.from_dag
         (Scenario.args (Some "mock_install,mock_init") true) None db'
       = (Ok tt, db', ev').
Proof.
  destruct scenario_guards as (Hvars & Hdag & Hknown & Hnew).
  destruct scenario_session_invariants as (Hpk & Hids & Hinv).
  apply (plan_dag_idempotent Scenario.Dag Scenario.operations
           Scenario.from_dag _ None Scenario.session
           Scenario.minimal_collections _ Hvars Hdag Hknown Hnew);
    [reflexivity | reflexivity | exact Hpk | exact Hids | exact Hinv].
Defined.

End DagPersistExamples.

(** ** The executors of the tests *)

Section TestExecutors.
Import Models Runner.

Lemma failing_executor_after_first (ops : list Operation.t) (count : nat) :
  0 < count ->
  Scenario.execute_all Scenario.FailingExecutor_execute count ops
  = (replicate (length ops) ExecFailure, count).
Proof.
  intros Hc. induction ops as [|o ops IH]; [done|].
  simpl. unfold Scenario.FailingExecutor_execute at 1.
  destruct (Nat.ltb_spec 0 count); [|lia]. by rewrite IH.
Qed.

Lemma mock_executor_all (ops : list Operation.t) :
  Scenario.execute_all Scenario.MockExecutor_execute tt ops
  = (replicate (length ops) ExecSuccess, tt).
Proof. induction ops as [|o ops IH]; [done|]. simpl. by rewrite IH. Qed.

(** X18. Called on one operation after the other, a fresh
    [FailingExecutor] succeeds on the first and fails on every later one,
    its counter staying at one; [MockExecutor] succeeds on all of them. *)
Theorem test_executors_outcomes (o : Operation.t) (ops : list Operation.t) :
  Scenario.execute_all Scenario.FailingExecutor_execute 0 (o :: ops)
  = (ExecSuccess :: replicate (length ops) ExecFailure, 1)
  /\ Scenario.execute_all Scenario.MockExecutor_execute tt (o :: ops)
     = (replicate (S (length ops)) ExecSuccess, tt).
Proof.
  split.
  - simpl. by rewrite failing_executor_after_first by lia.
  - apply (mock_executor_all (o :: ops)).
Qed.

End TestExecutors.
